(** * Celestial clock: moon phase, sky projection and sunrise alarm

    A shallow embedding of [services/celestialService.ts] and of the
    [App] component (state, effects and handlers), followed by the
    properties of the specification that concern them.

    Conventions of the embedding.
    - A JavaScript [Number] is idealised to exact arithmetic: rationals
      ([Q]) where the code only uses [+ - * / %] and comparisons, reals
      ([R]) where [Math.sin] and [Math.PI] occur.  Rounding of IEEE
      doubles is not modelled.
    - A [Date] is its time value: milliseconds since the Unix epoch, or
      no value at all for an Invalid Date (time value [NaN]).  Local
      time differs from UTC by a constant offset.
    - The component is a state record and one function per handler and
      per effect; a render cycle is a handler followed by the effects.
      [localStorage] is a finite map from keys to strings.
    - The engine ([Date] parsing and printing) and the ephemeris library
      ([SunCalc]) are interfaces; the results hold for all their
      implementations, and the examples run on reference ones. *)

From Stdlib Require Import ZArith QArith Qround Qabs Qminmax Lia Lqa Bool List.
From Stdlib Require Import Ascii String DecimalString.
From Stdlib Require Import Reals Lra.
From stdpp Require Import base gmap strings.
Import ListNotations.

(* ================================================================== *)
(** * Part I. Definitions *)
(* ================================================================== *)

(** ** Arithmetic of JavaScript numbers over [Q] *)

Module JSNum.
Local Open Scope Q_scope.

(** Truncation toward zero of a rational. *)
Definition Qtrunc (x : Q) : Z := Z.quot (Qnum x) (Zpos (Qden x)).

(** The [%] operator: the remainder takes the sign of the dividend
    ([a - b * trunc (a / b)]). *)
Definition rem (a b : Q) : Q := a - b * inject_Z (Qtrunc (a / b)).

(** [a < b] and [a >= b] as the booleans the code branches on. *)
Definition ltb (a b : Q) : bool := (Qnum a * QDen b <? Qnum b * QDen a)%Z.
Definition geb (a b : Q) : bool := Qle_bool b a.

(** Mathematical (floored) modulo, the operation the specification
    asks for; used only to compare with [rem]. *)
Definition floorMod (a b : Q) : Q := a - b * inject_Z (Qfloor (a / b)).

End JSNum.

(** ** services/celestialService.ts *)

Module Celestial.
Local Open Scope Q_scope.

(** Modelled from the spec: the enum [MoonPhase] of [types.ts], which
    is not part of the sources at hand; its eight members are the ones
    [getMoonPhase] and [MoonPhaseIcon] name. *)
Inductive MoonPhase : Set :=
| NewMoon
| WaxingCrescent
| FirstQuarter
| WaxingGibbous
| FullMoon
| WaningGibbous
| ThirdQuarter
| WaningCrescent.

Record MoonPhaseInfo : Set := mkMoonPhaseInfo {
  phase : MoonPhase;
  age : Q;
  fraction : Q
}.

Definition LUNAR_MONTH : Q := 29530588853 # 1000000000.

(** [new Date('2000-01-06T18:14:00Z').getTime()] *)
Definition KNOWN_NEW_MOON : Z := 947182440000.

(** [date] is the time value of a valid [Date]. *)
Definition daysSinceKnownNewMoon (date : Z) : Q :=
  let msSince := (date - KNOWN_NEW_MOON)%Z in
  inject_Z msSince / inject_Z (1000 * 60 * 60 * 24).

(** The chain of comparisons of [getMoonPhase], as a function of
    [fraction]. *)
Definition phaseOfFraction (fraction : Q) : MoonPhase :=
  if JSNum.ltb fraction (3 # 100) || JSNum.geb fraction (97 # 100) then NewMoon
  else if JSNum.ltb fraction (23 # 100) then WaxingCrescent
  else if JSNum.ltb fraction (27 # 100) then FirstQuarter
  else if JSNum.ltb fraction (48 # 100) then WaxingGibbous
  else if JSNum.ltb fraction (52 # 100) then FullMoon
  else if JSNum.ltb fraction (73 # 100) then WaningGibbous
  else if JSNum.ltb fraction (77 # 100) then ThirdQuarter
  else WaningCrescent.

Definition getMoonPhase (date : Z) : MoonPhaseInfo :=
  let days := daysSinceKnownNewMoon date in
  let age := JSNum.rem days LUNAR_MONTH in
  let fraction := age / LUNAR_MONTH in
  {| phase := phaseOfFraction fraction; age := age; fraction := fraction |}.

(** The table of the specification: the fractions on which each phase
    is prescribed. *)
Definition band (p : MoonPhase) (f : Q) : Prop :=
  match p with
  | NewMoon => (0 <= f /\ f < 3 # 100) \/ (97 # 100 <= f /\ f < 1)
  | WaxingCrescent => 3 # 100 <= f /\ f < 23 # 100
  | FirstQuarter => 23 # 100 <= f /\ f < 27 # 100
  | WaxingGibbous => 27 # 100 <= f /\ f < 48 # 100
  | FullMoon => 48 # 100 <= f /\ f < 52 # 100
  | WaningGibbous => 52 # 100 <= f /\ f < 73 # 100
  | ThirdQuarter => 73 # 100 <= f /\ f < 77 # 100
  | WaningCrescent => 77 # 100 <= f /\ f < 97 # 100
  end.

End Celestial.

(** ** The [Date] objects of the host *)

Module JSDate.
Local Open Scope Z_scope.

(** The time value of a [Date]; [None] is an Invalid Date. *)
Definition Date : Set := option Z.

(** A [Number] that is an integer or [NaN], as the getters return. *)
Definition Num : Set := option Z.

Definition msPerSecond : Z := 1000.
Definition msPerMinute : Z := 60000.
Definition msPerHour : Z := 3600000.
Definition msPerDay : Z := 86400000.

(** [TimeClip]: a time value out of range makes the date invalid. *)
Definition timeClip (t : Z) : Date :=
  if Z.abs t <=? 8640000000000000 then Some t else None.

(** [a < b] on two dates: both are converted with [valueOf], and a
    comparison with [NaN] is false. *)
Definition lt (a b : Date) : bool :=
  match a, b with
  | Some x, Some y => x <? y
  | _, _ => false
  end.

(** [a === b] on two numbers: [NaN] equals nothing. *)
Definition strictEq (a b : Num) : bool :=
  match a, b with
  | Some x, Some y => x =? y
  | _, _ => false
  end.

(** [d.setDate(d.getDate() + 1)]: one calendar day later at the same
    local time, which is 24 hours later when the offset of local time
    is constant. *)
Definition addOneDay (d : Date) : Date :=
  match d with
  | Some t => timeClip (t + msPerDay)
  | None => None
  end.

(** What the JavaScript engine supplies: the offset of local time
    (taken constant: no daylight-saving change), [new Date(string)]
    and [toISOString] on a valid time value. *)
Class Engine : Type := {
  LocalTZA : Z;
  Date_parse : string -> Date;
  Date_toISOString : Z -> string
}.

Section Getters.
Context `{Engine}.

Definition localTime (t : Z) : Z := t + LocalTZA.

Definition getHours (d : Date) : Num :=
  option_map (fun t => (localTime t / msPerHour) mod 24) d.

Definition getMinutes (d : Date) : Num :=
  option_map (fun t => (localTime t / msPerMinute) mod 60) d.

Definition getSeconds (d : Date) : Num :=
  option_map (fun t => (localTime t / msPerSecond) mod 60) d.

End Getters.

End JSDate.

(** ** The [App] component: state, effects and handlers *)

Module App.
Import JSDate.
Local Open Scope Z_scope.

Record Location : Set := mkLocation {
  latitude : Q;
  longitude : Q
}.

(** The instants of [CelestialInfo]; its real-valued fields (positions
    and illumination) are in module [Sky]. *)
Record CelestialInfo : Set := mkCelestialInfo {
  sunrise : Date;
  sunset : Date;
  solarNoon : Date
}.

(** The ephemeris library: [SunCalc.getTimes(date, latitude, longitude)]
    restricted to the three instants the component keeps. *)
Class SunCalc : Type := {
  getTimes : Date -> Location -> CelestialInfo
}.

(** The module-level audio handles: whether [audioContext] and
    [oscillator] are non-null, and (ghost) how many times
    [oscillator.start()] and [oscillator.stop(...)] have been called. *)
Record Audio : Set := mkAudio {
  audioContext : bool;
  oscillator : bool;
  starts : nat;
  stops : nat
}.

Definition playAlarmSound (a : Audio) : Audio :=
  let stopped := if oscillator a then S (stops a) else stops a in
  {| audioContext := true; oscillator := true;
     starts := S (starts a); stops := stopped |}.

Definition stopAlarmSound (a : Audio) : Audio :=
  if oscillator a && audioContext a then
    {| audioContext := audioContext a; oscillator := false;
       starts := starts a; stops := S (stops a) |}
  else a.

(** The state of the component together with the two stores it shares
    with its environment; [activeFact] and [transform] only concern the
    display and are left out. *)
Record AppState : Type := mkAppState {
  now : Z;
  location : option Location;
  locationError : option string;
  celestialInfo : option CelestialInfo;
  alarmTime : option Date;
  isAlarmRinging : bool;
  localStorage : gmap string string;
  audio : Audio
}.

Definition setLocation (l : option Location) (s : AppState) : AppState :=
  mkAppState (now s) l (locationError s) (celestialInfo s) (alarmTime s)
             (isAlarmRinging s) (localStorage s) (audio s).

Definition setLocationError (e : option string) (s : AppState) : AppState :=
  mkAppState (now s) (location s) e (celestialInfo s) (alarmTime s)
             (isAlarmRinging s) (localStorage s) (audio s).

Definition setCelestialInfo (c : option CelestialInfo) (s : AppState) : AppState :=
  mkAppState (now s) (location s) (locationError s) c (alarmTime s)
             (isAlarmRinging s) (localStorage s) (audio s).

Definition setAlarmTime (a : option Date) (s : AppState) : AppState :=
  mkAppState (now s) (location s) (locationError s) (celestialInfo s) a
             (isAlarmRinging s) (localStorage s) (audio s).

Definition setIsAlarmRinging (b : bool) (s : AppState) : AppState :=
  mkAppState (now s) (location s) (locationError s) (celestialInfo s)
             (alarmTime s) b (localStorage s) (audio s).

Definition setNow (t : Z) (s : AppState) : AppState :=
  mkAppState t (location s) (locationError s) (celestialInfo s)
             (alarmTime s) (isAlarmRinging s) (localStorage s) (audio s).

Definition withLocalStorage (f : gmap string string -> gmap string string)
    (s : AppState) : AppState :=
  mkAppState (now s) (location s) (locationError s) (celestialInfo s)
             (alarmTime s) (isAlarmRinging s) (f (localStorage s)) (audio s).

Definition withAudio (f : Audio -> Audio) (s : AppState) : AppState :=
  mkAppState (now s) (location s) (locationError s) (celestialInfo s)
             (alarmTime s) (isAlarmRinging s) (localStorage s) (f (audio s)).

(** How a handler ends: normally, or with an exception that leaves
    the state updates made so far in place. *)
Inductive Completion : Set :=
| Normal
| ThrowRangeError
| ThrowTypeError.

Section Component.
Context `{Engine} `{SunCalc}.

(** The initialiser of [alarmTime]: an absent key and the empty string
    are falsy, any other string goes through [new Date(savedAlarm)]. *)
Definition initialAlarmTime (storage : gmap string string) : option Date :=
  match storage !! "sunriseAlarm" with
  | Some savedAlarm =>
      if String.eqb savedAlarm "" then None else Some (Date_parse savedAlarm)
  | None => None
  end.

(** Modelled from the spec: the time source [hooks/useTime], which is
    not part of the sources at hand; it holds an instant that a tick
    replaces once per second.  [now0] is its first value. *)
Definition initialState (storage : gmap string string) (now0 : Z) : AppState :=
  {| now := now0; location := None; locationError := None;
     celestialInfo := None; alarmTime := initialAlarmTime storage;
     isAlarmRinging := false; localStorage := storage;
     audio := mkAudio false false 0 0 |}.

(** The effect on [[now, location]]. *)
Definition celestialEffect (s : AppState) : AppState :=
  match location s with
  | Some loc => setCelestialInfo (Some (getTimes (Some (now s)) loc)) s
  | None => s
  end.

(** The condition of the alarm effect. *)
Definition alarmMatches (now : Z) (alarmTime : Date) : bool :=
  strictEq (getHours (Some now)) (getHours alarmTime)
  && strictEq (getMinutes (Some now)) (getMinutes alarmTime)
  && strictEq (getSeconds (Some now)) (Some 0).

(** The effect on [[now, alarmTime, isAlarmRinging]]; a [Date], valid
    or not, is truthy. *)
Definition alarmEffect (s : AppState) : AppState :=
  match alarmTime s with
  | Some target =>
      if negb (isAlarmRinging s) then
        if alarmMatches (now s) target then
          withAudio playAlarmSound (setIsAlarmRinging true s)
        else s
      else s
  | None => s
  end.

(** [localStorage.setItem('sunriseAlarm', d.toISOString())]:
    [toISOString] throws a [RangeError] on an Invalid Date. *)
Definition persistAlarm (d : Date) (s : AppState) : AppState * Completion :=
  match d with
  | Some t =>
      (withLocalStorage (insert "sunriseAlarm" (Date_toISOString t)) s, Normal)
  | None => (s, ThrowRangeError)
  end.

(** [clock1] and [clock2] are the two readings [new Date()] of the
    handler, in this order. *)
Definition setSunriseAlarm (clock1 clock2 : Z) (s : AppState)
    : AppState * Completion :=
  match celestialInfo s with
  | None => (s, Normal)
  | Some info =>
      let alarmDate := sunrise info in
      if lt alarmDate (Some clock1) then
        let tomorrow := addOneDay (Some clock2) in
        match location s with
        | None => (s, ThrowTypeError)
        | Some loc =>
            let tomorrowTimes := getTimes tomorrow loc in
            persistAlarm (sunrise tomorrowTimes)
                         (setAlarmTime (Some (sunrise tomorrowTimes)) s)
        end
      else
        persistAlarm alarmDate (setAlarmTime (Some alarmDate) s)
  end.

Definition clearAlarm (s : AppState) : AppState :=
  withLocalStorage (delete "sunriseAlarm") (setAlarmTime None s).

Definition dismissAlarm (clock1 clock2 : Z) (s : AppState)
    : AppState * Completion :=
  setSunriseAlarm clock1 clock2
    (withAudio stopAlarmSound (setIsAlarmRinging false s)).

(** What happens to the component: a tick of the time source, the two
    outcomes of the geolocation request, and the three buttons. *)
Inductive Event : Set :=
| Tick (t : Z)
| GeoSuccess (loc : Location)
| GeoError
| ClickSetAlarm (clock1 clock2 : Z)
| ClickClear
| ClickDismiss (clock1 clock2 : Z).

Definition handle (e : Event) (s : AppState) : AppState :=
  match e with
  | Tick t => setNow t s
  | GeoSuccess loc => setLocationError None (setLocation (Some loc) s)
  | GeoError =>
      setLocation (Some (mkLocation (515074 # 10000) (- (1278 # 10000))%Q))
        (setLocationError
           (Some "Location access denied. Displaying generic data.") s)
  | ClickSetAlarm c1 c2 => fst (setSunriseAlarm c1 c2 s)
  | ClickClear => clearAlarm s
  | ClickDismiss c1 c2 => fst (dismissAlarm c1 c2 s)
  end.

(** One render cycle: the handler, then the effects in the order of
    the source.  Each effect is a function of its dependencies, so
    running it when they did not change changes nothing. *)
Definition step (e : Event) (s : AppState) : AppState :=
  alarmEffect (celestialEffect (handle e s)).

Definition run (es : list Event) (s : AppState) : AppState :=
  fold_left (fun st e => step e st) es s.

(** The state after mounting: the effects run once. *)
Definition mount (storage : gmap string string) (now0 : Z) : AppState :=
  alarmEffect (celestialEffect (initialState storage now0)).

(** The buttons exist only in the main view ([celestialInfo] set):
    "Dismiss" in the ringing overlay, "Clear Alarm" when [alarmTime]
    is set and "Set True Sunrise Alarm" when it is not. *)
Definition enabled (e : Event) (s : AppState) : bool :=
  match e with
  | Tick _ | GeoSuccess _ | GeoError => true
  | ClickSetAlarm _ _ =>
      bool_decide (is_Some (celestialInfo s)) && bool_decide (alarmTime s = None)
  | ClickClear =>
      bool_decide (is_Some (celestialInfo s)) && bool_decide (is_Some (alarmTime s))
  | ClickDismiss _ _ =>
      bool_decide (is_Some (celestialInfo s)) && isAlarmRinging s
  end.

(** Every event of the list is enabled when its turn comes. *)
Fixpoint runEnabled (es : list Event) (s : AppState) : bool :=
  match es with
  | [] => true
  | e :: rest => enabled e s && runEnabled rest (step e s)
  end.

(** The states the component can be in. *)
Inductive reachable : AppState -> Prop :=
| reachable_mount storage now0 : reachable (mount storage now0)
| reachable_step e s :
    reachable s -> enabled e s = true -> reachable (step e s).

Definition isDismiss (e : Event) : bool :=
  match e with
  | ClickDismiss _ _ => true
  | _ => false
  end.

(** The condition of the specification for ringing: hours and minutes
    of the local time agree and the second is 0. *)
Definition sameNumber (a b : Num) : Prop := exists n, a = Some n /\ b = Some n.

Definition ringCondition (now : Z) (target : Date) : Prop :=
  sameNumber (getHours (Some now)) (getHours target)
  /\ sameNumber (getMinutes (Some now)) (getMinutes target)
  /\ getSeconds (Some now) = Some 0.

(** The audio handles agree with the state: an oscillator lives in a
    context, and the tone sounds while the alarm rings. *)
Definition audioConsistent (s : AppState) : Prop :=
  (oscillator (audio s) = true -> audioContext (audio s) = true)
  /\ (isAlarmRinging s = true -> oscillator (audio s) = true).

(** This render started the tone: [oscillator.start()] was called. *)
Definition startsTone (e : Event) (s : AppState) : bool :=
  (starts (audio s) <? starts (audio (step e s)))%nat.

(** The alarm states of the specification, read off the two state
    variables: the overlay and the tone follow [isAlarmRinging]. *)
Inductive AlarmState : Set :=
| Unset
| Armed (target : Date)
| Ringing.

Definition alarmState (s : AppState) : AlarmState :=
  if isAlarmRinging s then Ringing
  else match alarmTime s with
       | Some target => Armed target
       | None => Unset
       end.

End Component.

End App.

(** ** The sky: gradient and placement on the dial *)

Module Sky.
Local Open Scope R_scope.

Record Position : Type := mkPosition {
  altitude : R;
  azimuth : R
}.

(** The real-valued part of [CelestialInfo] that the placement reads
    (the parallactic angle of the Moon is passed on untouched). *)
Record SkyInfo : Type := mkSkyInfo {
  sunPosition : Position;
  moonPosition : Position
}.

Definition getSkyGradient (sunAltitude : R) : string :=
  let altDegrees := sunAltitude * (180 / PI) in
  if Rgt_dec altDegrees 5 then "from-sky-500 to-blue-700"
  else if Rgt_dec altDegrees (-5) then "from-indigo-300 via-orange-400 to-red-500"
  else "from-gray-900 to-black".

Definition sunAzimuthDegrees (celestialInfo : option SkyInfo) : R :=
  match celestialInfo with
  | Some info => azimuth (sunPosition info) * (180 / PI)
  | None => 0
  end.

Definition sunAngle (celestialInfo : option SkyInfo) : R :=
  sunAzimuthDegrees celestialInfo + 180.

Definition sunAltitudeOffset (celestialInfo : option SkyInfo) : R :=
  match celestialInfo with
  | Some info => (1 - sin (altitude (sunPosition info))) * 50
  | None => 50
  end.

Definition moonAzimuthDegrees (celestialInfo : option SkyInfo) : R :=
  match celestialInfo with
  | Some info => azimuth (moonPosition info) * (180 / PI)
  | None => 0
  end.

Definition moonAngle (celestialInfo : option SkyInfo) : R :=
  moonAzimuthDegrees celestialInfo + 180.

Definition moonAltitudeOffset (celestialInfo : option SkyInfo) : R :=
  match celestialInfo with
  | Some info => (1 - sin (altitude (moonPosition info))) * 50
  | None => 50
  end.

(** The sky states of the specification and the gradient the code
    returns for each (its comments: daytime, sunrise/sunset,
    nighttime). *)
Inductive SkyState : Set := Day | Twilight | Night.

Definition gradient (k : SkyState) : string :=
  match k with
  | Day => "from-sky-500 to-blue-700"
  | Twilight => "from-indigo-300 via-orange-400 to-red-500"
  | Night => "from-gray-900 to-black"
  end.

End Sky.

(** ** A reference host for the examples *)

(** An engine whose local time is UTC and which reads exactly the
    date-time format that [toISOString] writes,
    [YYYY-MM-DDTHH:mm:ss.sssZ]; any other string is read as an Invalid
    Date.  The general results below hold for every engine. *)
Module UTCEngine.
Import JSDate.
Local Open Scope Z_scope.

(** Day number since 1970-01-01 to proleptic Gregorian year, month, day. *)
Definition civilFromDays (z0 : Z) : Z * Z * Z :=
  let z := z0 + 719468 in
  let era := z / 146097 in
  let doe := z - era * 146097 in
  let yoe := (doe - doe / 1460 + doe / 36524 - doe / 146096) / 365 in
  let doy := doe - (365 * yoe + yoe / 4 - yoe / 100) in
  let mp := (5 * doy + 2) / 153 in
  let d := doy - (153 * mp + 2) / 5 + 1 in
  let m := if mp <? 10 then mp + 3 else mp - 9 in
  let y := yoe + era * 400 in
  (if m <=? 2 then y + 1 else y, m, d).

Definition daysFromCivil (y0 m d : Z) : Z :=
  let y := if m <=? 2 then y0 - 1 else y0 in
  let era := y / 400 in
  let yoe := y - era * 400 in
  let mp := if 2 <? m then m - 3 else m + 9 in
  let doy := (153 * mp + 2) / 5 + d - 1 in
  let doe := yoe * 365 + yoe / 4 - yoe / 100 + doy in
  era * 146097 + doe - 719468.

Definition digit (n : Z) : ascii := ascii_of_nat (48 + Z.to_nat (n mod 10)).

(** The last [width] decimal digits of [n], most significant first. *)
Fixpoint pad (width : nat) (n : Z) : string :=
  match width with
  | O => EmptyString
  | S w => String.append (pad w (n / 10)) (String (digit n) EmptyString)
  end.

Definition toISOString (t : Z) : string :=
  let '(y, m, d) := civilFromDays (t / msPerDay) in
  let ms := t mod msPerDay in
  let year :=
    if (0 <=? y) && (y <=? 9999) then pad 4 y
    else String.append (if y <? 0 then "-" else "+") (pad 6 (Z.abs y)) in
  String.concat "" [
    year; "-"; pad 2 m; "-"; pad 2 d; "T";
    pad 2 (ms / msPerHour); ":"; pad 2 (ms / msPerMinute mod 60); ":";
    pad 2 (ms / msPerSecond mod 60); "."; pad 3 (ms mod 1000); "Z" ].

Definition digitValue (c : ascii) : option Z :=
  let n := Z.of_nat (nat_of_ascii c) in
  if (48 <=? n) && (n <=? 57) then Some (n - 48) else None.

(** The value of a string of decimal digits. *)
Fixpoint number (acc : Z) (s : string) : option Z :=
  match s with
  | EmptyString => Some acc
  | String c rest =>
      match digitValue c with
      | Some v => number (10 * acc + v) rest
      | None => None
      end
  end.

Definition field (s : string) (start len : nat) : option Z :=
  number 0 (String.substring start len s).

Definition separators (s : string) : bool :=
  bool_decide (String.length s = 24%nat)
  && bool_decide (String.substring 4 1 s = "-")
  && bool_decide (String.substring 7 1 s = "-")
  && bool_decide (String.substring 10 1 s = "T")
  && bool_decide (String.substring 13 1 s = ":")
  && bool_decide (String.substring 16 1 s = ":")
  && bool_decide (String.substring 19 1 s = ".")
  && bool_decide (String.substring 23 1 s = "Z").

Definition parse (s : string) : Date :=
  if separators s then
    match field s 0 4, field s 5 2, field s 8 2,
          field s 11 2, field s 14 2, field s 17 2, field s 20 3 with
    | Some y, Some m, Some d, Some hh, Some mm, Some ss, Some ms =>
        let day := daysFromCivil y m d in
        if (1 <=? m) && (m <=? 12) && (1 <=? d)
           && bool_decide (civilFromDays day = (y, m, d))
           && (hh <=? 23) && (mm <=? 59) && (ss <=? 59)
        then timeClip (day * msPerDay + hh * msPerHour + mm * msPerMinute
                       + ss * msPerSecond + ms)
        else None
    | _, _, _, _, _, _, _ => None
    end
  else None.

Definition engine : Engine :=
  {| LocalTZA := 0; Date_parse := parse; Date_toISOString := toISOString |}.

End UTCEngine.

(** ** Two ephemerides and the instants of the examples *)

Module Scenario.
Import JSDate App.
Local Open Scope Z_scope.

(** Day 19284 after the Unix epoch is 2022-10-19. *)
Definition day0 : Z := 19284.

(** The instant [h:m:s.ms] (UTC) of the [k]-th day after [day0]. *)
Definition at_ (k h m s ms : Z) : Z :=
  (day0 + k) * msPerDay + h * msPerHour + m * msPerMinute + s * msPerSecond + ms.

(** In autumn at a middle latitude: the Sun rises at 06:30:40.250 on
    [day0] and 90 seconds later on each following day. *)
Definition laterEachDay (d : Date) : CelestialInfo :=
  match d with
  | Some t =>
      let day := t / msPerDay in
      let rise := day * msPerDay + 23440250 + 90000 * (day - day0) in
      mkCelestialInfo (Some rise) (Some (rise + 9 * msPerHour))
                      (Some (rise + 9 * msPerHour / 2))
  | None => mkCelestialInfo None None None
  end.

Definition autumn : SunCalc := {| getTimes d _ := laterEachDay d |}.

(** Beyond the polar circle at the onset of the polar night: the Sun
    rises at 11:30:00 on [day0] for the last time; the library then
    answers with an Invalid Date. *)
Definition lastSunrise (d : Date) : CelestialInfo :=
  match d with
  | Some t =>
      let day := t / msPerDay in
      if day <=? day0 then
        let rise := day * msPerDay + 41400000 in
        mkCelestialInfo (Some rise) (Some (rise + msPerHour))
                        (Some (rise + msPerHour / 2))
      else mkCelestialInfo None None None
  | None => mkCelestialInfo None None None
  end.

Definition polarNight : SunCalc := {| getTimes d _ := lastSunrise d |}.

(** Ten days before the reference new moon: 1999-12-27T18:14:00Z. *)
Definition tenDaysBefore : Z := Celestial.KNOWN_NEW_MOON - 10 * msPerDay.

Definition greenwich : Location := mkLocation (514779 # 10000) 0.

Section AutumnRuns.
#[local] Existing Instance UTCEngine.engine.
#[local] Existing Instance autumn.

(** The page is opened at 06:00 with nothing stored, the location
    arrives, and "Set True Sunrise Alarm" is clicked at 06:31:00.4,
    after the sunrise of the day (06:30:40.250). *)
Definition armAfterSunrise : list Event :=
  [ GeoSuccess greenwich; Tick (at_ 0 6 31 0 0);
    ClickSetAlarm (at_ 0 6 31 0 400) (at_ 0 6 31 0 400) ].

Definition armedForTomorrow : AppState :=
  run armAfterSunrise (mount ∅ (at_ 0 6 0 0 0)).

(** The page is opened at 06:00 and finds the alarm that an earlier
    session stored for the next morning. *)
Definition savedForTomorrow : gmap string string :=
  {[ "sunriseAlarm" := "2022-10-20T06:32:10.250Z" ]}.

Definition reopened : AppState := mount savedForTomorrow (at_ 0 6 0 0 0).

(** Or it finds the alarm of a morning one week back. *)
Definition savedLastWeek : gmap string string :=
  {[ "sunriseAlarm" := "2022-10-12T06:20:10.250Z" ]}.

Definition reopenedLate : AppState := mount savedLastWeek (at_ 0 6 0 0 0).

(** The page is opened at 05:00, the alarm is set at 05:00:01 for the
    sunrise of the day, and the tick of 06:30:00 comes. *)
Definition armBeforeSunrise : list Event :=
  [ GeoSuccess greenwich; ClickSetAlarm (at_ 0 5 0 1 0) (at_ 0 5 0 1 0);
    Tick (at_ 0 6 30 0 0) ].

Definition ringingBeforeSunrise : AppState :=
  run armBeforeSunrise (mount ∅ (at_ 0 5 0 0 0)).

(** The instant of the sunrise, and the state after the tick of
    06:30:40. *)
Definition sunriseInstant : Z := at_ 0 6 30 40 250.

Definition ringingAtSunrise : AppState :=
  step (Tick (at_ 0 6 30 40 0)) ringingBeforeSunrise.

(** "Dismiss" is clicked at the very instant of the sunrise. *)
Definition dismissedAtSunrise : AppState * Completion :=
  dismissAlarm sunriseInstant sunriseInstant ringingAtSunrise.

(** Or earlier: five seconds after the alarm rang, the tick of
    06:30:05 having come... *)
Definition ringingForFiveSeconds : AppState :=
  step (Tick (at_ 0 6 30 5 0)) ringingBeforeSunrise.

Definition dismissedEarly : AppState * Completion :=
  dismissAlarm (at_ 0 6 30 5 0) (at_ 0 6 30 5 0) ringingForFiveSeconds.

(** ...or at 06:30:00.7, before the next tick. *)
Definition dismissedAtOnce : AppState :=
  step (ClickDismiss (at_ 0 6 30 0 700) (at_ 0 6 30 0 700)) ringingBeforeSunrise.

(** The page is opened at 06:00, the location arrives, and at
    06:31:00.4 the alarm is about to be set. *)
Definition locatedAfterSunrise : AppState :=
  run [GeoSuccess greenwich; Tick (at_ 0 6 31 0 0)] (mount ∅ (at_ 0 6 0 0 0)).


(** The tick of 06:32:00 and the sunrise of the next morning. *)
Definition tickOfDay0 : Z := at_ 0 6 32 0 0.
Definition sunriseOfDay1 : Z := at_ 1 6 32 10 250.

(** The stored value is no date at all. *)
Definition malformed : gmap string string :=
  {[ "sunriseAlarm" := "not-a-date" ]}.

End AutumnRuns.

Section PolarRuns.
#[local] Existing Instance UTCEngine.engine.
#[local] Existing Instance polarNight.




End PolarRuns.

End Scenario.

(** ** components/MoonPhaseDisplay.tsx: the line under the phase name *)

Module MoonDisplay.
Import Celestial.
Local Open Scope Q_scope.







(** The order in which the phases follow one another in a cycle. *)
Definition phaseRank (p : MoonPhase) : nat :=
  match p with
  | NewMoon => 0
  | WaxingCrescent => 1
  | FirstQuarter => 2
  | WaxingGibbous => 3
  | FullMoon => 4
  | WaningGibbous => 5
  | ThirdQuarter => 6
  | WaningCrescent => 7
  end.


End MoonDisplay.

(** ** The [CelestialBody] component: whether a body shows *)

Module Body.
Import Sky.
Local Open Scope R_scope.

Inductive Name : Set := Sun | Moon.

(** [a > b] as the boolean the code passes on. *)
Definition gt (a b : R) : bool := if Rgt_dec a b then true else false.

(** [isDay] is an optional property: absent, it is falsy. *)
Definition visibilityClass (name : Name) (isAboveHorizon : bool)
    (isDay : option bool) : string :=
  if isAboveHorizon then
    if match name with Moon => true | Sun => false end
       && match isDay with Some true => true | _ => false end
    then "opacity-40"
    else "opacity-100"
  else "opacity-0".

(** The properties [App] passes to the two bodies. *)
Definition sunVisibility (celestialInfo : SkyInfo) : string :=
  visibilityClass Sun (gt (altitude (sunPosition celestialInfo)) 0) None.

Definition moonVisibility (celestialInfo : SkyInfo) : string :=
  visibilityClass Moon (gt (altitude (moonPosition celestialInfo)) 0)
    (Some (gt (altitude (sunPosition celestialInfo)) (- (17 / 1000)))).

End Body.

(** ** Invariants of the component *)

Module AppInvariants.
Import JSDate App.

Section Invariants.
Context `{Engine} `{SunCalc}.

(** The snapshot is the one of the current instant and location, and
    there is none before the location is known. *)
Definition snapshotFresh (s : AppState) : Prop :=
  match location s with
  | Some loc => celestialInfo s = Some (getTimes (Some (now s)) loc)
  | None => celestialInfo s = None
  end.

(** The tone sounds exactly while the alarm rings, in an audio
    context, and every oscillator started but the live one has been
    stopped. *)
Definition audioBalanced (s : AppState) : Prop :=
  oscillator (audio s) = isAlarmRinging s
  /\ (oscillator (audio s) = true -> audioContext (audio s) = true)
  /\ starts (audio s) = (stops (audio s) + if oscillator (audio s) then 1 else 0)%nat.

(** The first instant of the local minute of [t]. *)
Definition minuteStart (t : Z) : Z := (t - (localTime t) mod msPerMinute)%Z.


End Invariants.

End AppInvariants.

(** ** The view: zoom with the wheel, pan with the mouse *)

(** The touch handlers are left out: they measure the pinch with
    [Math.sqrt] and divide by it. *)
Module View.
Local Open Scope Q_scope.

Record Transform : Set := mkTransform {
  scale : Q;
  x : Q;
  y : Q
}.

Record Point : Set := mkPoint {
  px : Q;
  py : Q
}.

(** The object behind the ref [interactionState]. *)
Record InteractionState : Set := mkInteractionState {
  isPinching : bool;
  initialPinchDist : Q;
  isPanning : bool;
  panStart : Point;
  isInteracting : bool
}.

Record ViewState : Set := mkViewState {
  transform : Transform;
  interactionState : InteractionState
}.

Definition initialView : ViewState :=
  {| transform := mkTransform 1 0 0;
     interactionState := mkInteractionState false 0 false (mkPoint 0 0) false |}.

Definition zoomFactor : Q := 5 # 100.

Definition handleWheel (deltaY : Q) (v : ViewState) : ViewState :=
  let i := interactionState v in
  let prev := transform v in
  {| transform :=
       mkTransform
         (Qmax 1 (Qmin 4 (scale prev - deltaY * zoomFactor * scale prev)))
         (x prev) (y prev);
     interactionState :=
       mkInteractionState (isPinching i) (initialPinchDist i) (isPanning i)
                          (panStart i) true |}.

Definition handleMouseDown (clientX clientY : Q) (v : ViewState) : ViewState :=
  let i := interactionState v in
  {| transform := transform v;
     interactionState :=
       mkInteractionState (isPinching i) (initialPinchDist i) true
         (mkPoint (clientX - x (transform v)) (clientY - y (transform v)))
         true |}.

Definition handleMouseMove (clientX clientY : Q) (v : ViewState) : ViewState :=
  let i := interactionState v in
  if negb (isPanning i) then v
  else
    {| transform :=
         mkTransform (scale (transform v))
                     (clientX - px (panStart i)) (clientY - py (panStart i));
       interactionState := i |}.

Definition handleMouseUpOrLeave (v : ViewState) : ViewState :=
  let i := interactionState v in
  {| transform := transform v;
     interactionState :=
       mkInteractionState (isPinching i) (initialPinchDist i) false
                          (panStart i) false |}.

Definition resetTransform (v : ViewState) : ViewState :=
  let i := interactionState v in
  {| transform := mkTransform 1 0 0;
     interactionState :=
       mkInteractionState (isPinching i) (initialPinchDist i) (isPanning i)
                          (panStart i) false |}.

(** The bounds of the scale. *)
Definition inRange (v : ViewState) : Prop :=
  1 <= scale (transform v) /\ scale (transform v) <= 4.

(** Whether "Reset View" is offered. *)
Definition isZoomed (v : ViewState) : bool :=
  negb (Qeq_bool (scale (transform v)) 1)
  || negb (Qeq_bool (x (transform v)) 0)
  || negb (Qeq_bool (y (transform v)) 0).

Inductive Gesture : Set :=
| Wheel (deltaY : Q)
| MouseDown (clientX clientY : Q)
| MouseMove (clientX clientY : Q)
| MouseUp
| MouseLeave
| ResetView.

Definition gesture (g : Gesture) (v : ViewState) : ViewState :=
  match g with
  | Wheel deltaY => handleWheel deltaY v
  | MouseDown clientX clientY => handleMouseDown clientX clientY v
  | MouseMove clientX clientY => handleMouseMove clientX clientY v
  | MouseUp | MouseLeave => handleMouseUpOrLeave v
  | ResetView => resetTransform v
  end.

Definition gestures (gs : list Gesture) (v : ViewState) : ViewState :=
  fold_left (fun st g => gesture g st) gs v.

End View.

(** ** The facts about the Sun and the Moon *)

Module FactPicker.
Import Body.

Definition celestialFacts (body : Name) : list string :=
  match body with
  | Sun =>
      [ "The Sun accounts for 99.86% of the mass in the solar system.";
        "Sunlight takes about 8 minutes and 20 seconds to reach Earth.";
        "The Sun's surface temperature is around 5,500 degrees Celsius.";
        "The Sun is a middle-aged star, about 4.6 billion years old." ]
  | Moon =>
      [ "The Moon is Earth's only natural satellite.";
        "The Moon is slowly moving away from Earth at a rate of about 3.8 cm per year.";
        "The same side of the Moon always faces Earth.";
        "The Moon has quakes, just like Earth, called 'moonquakes'." ]
  end%string.

(** [text] is [undefined] when the index misses the array. *)
Record ActiveFact : Type := mkActiveFact {
  body : Name;
  text : option string;
  angle : R
}.

(** [facts[i]] for an integer [i]. *)
Definition index (facts : list string) (i : Z) : option string :=
  if (i <? 0)%Z then None else nth_error facts (Z.to_nat i).

(** [random] is the value of [Math.random()]. *)
Definition handleBodyClick (sunAngle moonAngle : R) (body : Name) (random : Q)
    : ActiveFact :=
  let facts := celestialFacts body in
  let randomFact :=
    index facts (Qfloor (random * inject_Z (Z.of_nat (length facts)))) in
  let angle := match body with Sun => sunAngle | Moon => moonAngle end in
  mkActiveFact body randomFact angle.

(** The timers of the window: the pending ones with the instant from
    which each may fire, and the next identifier. *)
Record Timers : Set := mkTimers {
  pending : list (nat * Z);
  nextTimer : nat
}.

Definition setTimeout (deadline : Z) (T : Timers) : nat * Timers :=
  (nextTimer T, mkTimers ((nextTimer T, deadline) :: pending T) (S (nextTimer T))).

Definition clearTimeout (id : nat) (T : Timers) : Timers :=
  mkTimers (List.filter (fun p => negb (Nat.eqb (fst p) id)) (pending T))
           (nextTimer T).

(** [cleanup] is the timer that the cleanup of the last run of the
    effect clears, when that run set one. *)
Record FactState : Type := mkFactState {
  activeFact : option ActiveFact;
  timers : Timers;
  cleanup : option nat
}.

Definition initialFacts : FactState := mkFactState None (mkTimers [] 0) None.

(** The effect on [[activeFact]], run at the instant [time]: the
    cleanup of the previous run, then a timer of 4000 ms when there is
    a fact. *)
Definition factEffect (time : Z) (s : FactState) : FactState :=
  let T := match cleanup s with
           | Some id => clearTimeout id (timers s)
           | None => timers s
           end in
  match activeFact s with
  | Some _ =>
      let '(id, T') := setTimeout (time + 4000) T in
      mkFactState (activeFact s) T' (Some id)
  | None => mkFactState None T None
  end.

Inductive FactEvent : Type :=
| BodyClick (sunAngle moonAngle : R) (body : Name) (random : Q) (time : Z)
| Timeout (id : nat) (time : Z).

(** A timer fires only while it is pending, and not before its time. *)
Definition mayFire (id : nat) (time : Z) (s : FactState) : Prop :=
  exists deadline : Z, In (id, deadline) (pending (timers s)) /\ (deadline <= time)%Z.

(** A click sets a new fact, and the effect runs; a timer that fires
    leaves the table and sets the fact to null, and the effect runs if
    that changed the state. *)
Definition factStep (e : FactEvent) (s : FactState) : FactState :=
  match e with
  | BodyClick sunAngle moonAngle body random time =>
      factEffect time
        (mkFactState (Some (handleBodyClick sunAngle moonAngle body random))
                     (timers s) (cleanup s))
  | Timeout id time =>
      let fired := mkFactState (activeFact s) (clearTimeout id (timers s)) (cleanup s) in
      match activeFact s with
      | Some _ => factEffect time (mkFactState None (timers fired) (cleanup fired))
      | None => fired
      end
  end.

Inductive factReachable : FactState -> Prop :=
| factReachable_initial : factReachable initialFacts
| factReachable_click a b n r t s :
    factReachable s -> factReachable (factStep (BodyClick a b n r t) s)
| factReachable_timeout id t s :
    factReachable s -> mayFire id t s -> factReachable (factStep (Timeout id t) s).

End FactPicker.

(* ================================================================== *)
(** * Part II. Properties *)
(* ================================================================== *)

(** ** The moon phase *)

Module CelestialFacts.
Import Celestial.
Local Open Scope Q_scope.
Local Ltac lra := Lqa.lra.
Local Ltac nra := Lqa.nra.

Lemma ltb_lt (a b : Q) : JSNum.ltb a b = true <-> a < b.
Proof. unfold JSNum.ltb, Qlt. apply Z.ltb_lt. Qed.

Lemma ltb_ge (a b : Q) : JSNum.ltb a b = false <-> b <= a.
Proof. unfold JSNum.ltb, Qle. apply Z.ltb_ge. Qed.

Lemma geb_ge (a b : Q) : JSNum.geb a b = true <-> b <= a.
Proof. unfold JSNum.geb. apply Qle_bool_iff. Qed.

Lemma geb_lt (a b : Q) : JSNum.geb a b = false <-> a < b.
Proof.
  unfold JSNum.geb. split; intros E.
  - apply Qnot_le_lt. intros L. apply Qle_bool_iff in L. congruence.
  - destruct (Qle_bool b a) eqn:L; [|reflexivity].
    apply Qle_bool_iff in L. exfalso; lra.
Qed.

(** Turns every comparison the code made into the inequality it decided. *)
Ltac comparisons :=
  repeat match goal with
  | E : JSNum.ltb _ _ = true |- _ => apply ltb_lt in E
  | E : JSNum.ltb _ _ = false |- _ => apply ltb_ge in E
  | E : JSNum.geb _ _ = true |- _ => apply geb_ge in E
  | E : JSNum.geb _ _ = false |- _ => apply geb_lt in E
  end.

Ltac split_chain :=
  repeat match goal with
  | |- context [JSNum.ltb ?a ?b] => destruct (JSNum.ltb a b) eqn:?
  | |- context [JSNum.geb ?a ?b] => destruct (JSNum.geb a b) eqn:?
  end; simpl.



Lemma band_cover (f : Q) : 0 <= f -> f < 1 -> band (phaseOfFraction f) f.
Proof.
  intros L U. unfold phaseOfFraction. split_chain; comparisons; simpl; lra.
Qed.

Lemma Qtrunc_nonneg (x : Q) :
  0 <= x -> inject_Z (JSNum.Qtrunc x) <= x /\ x < inject_Z (JSNum.Qtrunc x) + 1.
Proof.
  intros P.
  assert (E : JSNum.Qtrunc x = Qfloor x).
  { destruct x as [n d]. unfold JSNum.Qtrunc, Qfloor; simpl.
    apply Z.quot_div_nonneg; [|reflexivity].
    unfold Qle in P; simpl in P. lia. }
  rewrite E. split; [apply Qfloor_le|].
  change 1 with (inject_Z 1). rewrite <- inject_Z_plus. apply Qlt_floor.
Qed.

Lemma Qtrunc_nonpos (x : Q) :
  x <= 0 -> x <= inject_Z (JSNum.Qtrunc x) /\ inject_Z (JSNum.Qtrunc x) < x + 1.
Proof.
  intros N.
  assert (E : JSNum.Qtrunc x = (- JSNum.Qtrunc (- x))%Z).
  { destruct x as [n d]. unfold JSNum.Qtrunc; simpl.
    rewrite Z.quot_opp_l by discriminate. lia. }
  destruct (Qtrunc_nonneg (- x)) as [L U]; [lra|].
  rewrite E, inject_Z_opp. split; lra.
Qed.

Lemma rem_nonneg (a b : Q) :
  0 <= a -> 0 < b -> 0 <= JSNum.rem a b /\ JSNum.rem a b < b.
Proof.
  intros Pa Pb. unfold JSNum.rem.
  assert (Pq : 0 <= a / b) by (apply Qle_shift_div_l; lra).
  destruct (Qtrunc_nonneg (a / b) Pq) as [L U].
  assert (E : a == b * (a / b)) by (field; lra).
  set (k := inject_Z (JSNum.Qtrunc (a / b))) in *.
  set (q := a / b) in *. split; nra.
Qed.

Lemma rem_nonpos (a b : Q) :
  a <= 0 -> 0 < b -> - b < JSNum.rem a b /\ JSNum.rem a b <= 0.
Proof.
  intros Na Pb. unfold JSNum.rem.
  assert (Nq : a / b <= 0) by (apply Qle_shift_div_r; lra).
  destruct (Qtrunc_nonpos (a / b) Nq) as [L U].
  assert (E : a == b * (a / b)) by (field; lra).
  set (k := inject_Z (JSNum.Qtrunc (a / b))) in *.
  set (q := a / b) in *. split; nra.
Qed.

Lemma LUNAR_MONTH_pos : 0 < LUNAR_MONTH.
Proof. reflexivity. Qed.

(** The constant is the instant the source writes, and the instant of
    the example lies ten days before it. *)
Lemma KNOWN_NEW_MOON_date :
  UTCEngine.toISOString KNOWN_NEW_MOON = "2000-01-06T18:14:00.000Z"%string
  /\ UTCEngine.toISOString Scenario.tenDaysBefore
     = "1999-12-27T18:14:00.000Z"%string.
Proof. split; reflexivity. Qed.

Lemma days_sign (t : Z) :
  ((KNOWN_NEW_MOON <= t)%Z -> 0 <= daysSinceKnownNewMoon t)
  /\ ((t < KNOWN_NEW_MOON)%Z -> daysSinceKnownNewMoon t < 0).
Proof.
  unfold daysSinceKnownNewMoon. split; intros I.
  - apply Qle_shift_div_l; [reflexivity|]. rewrite Qmult_0_l.
    rewrite <- (Zle_Qle 0). lia.
  - apply Qlt_shift_div_r; [reflexivity|]. rewrite Qmult_0_l.
    rewrite <- (Zlt_Qlt _ 0). lia.
Qed.

(** From the reference new moon on, the age and the fraction stay in
    their ranges. *)
Lemma getMoonPhase_range_from_epoch (t : Z) :
  (KNOWN_NEW_MOON <= t)%Z ->
  0 <= age (getMoonPhase t) /\ age (getMoonPhase t) < LUNAR_MONTH
  /\ 0 <= fraction (getMoonPhase t) /\ fraction (getMoonPhase t) < 1.
Proof.
  intros I. simpl.
  destruct (rem_nonneg (daysSinceKnownNewMoon t) LUNAR_MONTH) as [L U].
  { apply days_sign, I. }
  { apply LUNAR_MONTH_pos. }
  repeat split; trivial.
  - apply Qle_shift_div_l; [apply LUNAR_MONTH_pos | lra].
  - apply Qlt_shift_div_r; [apply LUNAR_MONTH_pos | lra].
Qed.

(** Before it, the remainder keeps the sign of the dividend: the age
    and the fraction are never positive, and the phase is stuck. *)
Lemma getMoonPhase_before_epoch (t : Z) :
  (t < KNOWN_NEW_MOON)%Z ->
  - LUNAR_MONTH < age (getMoonPhase t) /\ age (getMoonPhase t) <= 0
  /\ fraction (getMoonPhase t) <= 0
  /\ phase (getMoonPhase t) = NewMoon.
Proof.
  intros I. simpl.
  destruct (rem_nonpos (daysSinceKnownNewMoon t) LUNAR_MONTH) as [L U].
  { apply Qlt_le_weak, days_sign, I. }
  { apply LUNAR_MONTH_pos. }
  assert (F : JSNum.rem (daysSinceKnownNewMoon t) LUNAR_MONTH / LUNAR_MONTH <= 0).
  { apply Qle_shift_div_r; [apply LUNAR_MONTH_pos | lra]. }
  repeat split; trivial.
  unfold phaseOfFraction.
  destruct (JSNum.ltb _ (3 # 100)) eqn:E; [reflexivity|].
  comparisons. lra.
Qed.

(** C1. The specification asks for an age in [[0, LUNAR_MONTH)] and a
    fraction in [[0, 1)] at every instant, through a mathematical
    modulo.  The code takes the remainder with [%], and ten days before
    the reference new moon it returns the age -10, a negative fraction
    and the phase NewMoon, where the mathematical modulo gives
    [LUNAR_MONTH - 10]. *)
Theorem getMoonPhase_ten_days_before_epoch :
  (Scenario.tenDaysBefore < KNOWN_NEW_MOON)%Z
  /\ age (getMoonPhase Scenario.tenDaysBefore) == - (10)
  /\ fraction (getMoonPhase Scenario.tenDaysBefore) < 0
  /\ phase (getMoonPhase Scenario.tenDaysBefore) = NewMoon
  /\ JSNum.floorMod (daysSinceKnownNewMoon Scenario.tenDaysBefore) LUNAR_MONTH
     == LUNAR_MONTH - 10.
Proof. vm_compute. repeat split; reflexivity || discriminate. Qed.


End CelestialFacts.

(** ** The sky *)

Module SkyFacts.
Import Sky.
Local Open Scope R_scope.

Lemma gradient_inj (j k : SkyState) : gradient j = gradient k -> j = k.
Proof. destruct j, k; simpl; intros E; reflexivity || discriminate E. Qed.

(** The three branches of [getSkyGradient]. *)
Lemma getSkyGradient_cases (a : R) :
  let deg := a * (180 / PI) in
  (deg > 5 /\ getSkyGradient a = gradient Day)
  \/ (-5 < deg <= 5 /\ getSkyGradient a = gradient Twilight)
  \/ (deg <= -5 /\ getSkyGradient a = gradient Night).
Proof.
  intros deg. unfold getSkyGradient. fold deg.
  destruct (Rgt_dec deg 5) as [D|D]; [left; split; trivial|].
  destruct (Rgt_dec deg (-5)) as [T|T]; [right; left|right; right];
    (split; [lra | reflexivity]).
Qed.

Lemma degrees_of_radians (d : R) : d * (PI / 180) * (180 / PI) = d.
Proof. field. apply PI_neq0. Qed.

Lemma getSkyGradient_of_degrees (d : R) :
  (-5 < d <= 5 -> getSkyGradient (d * (PI / 180)) = gradient Twilight)
  /\ (d <= -5 -> getSkyGradient (d * (PI / 180)) = gradient Night).
Proof.
  destruct (getSkyGradient_cases (d * (PI / 180))) as [[I E]|[[I E]|[I E]]];
    rewrite degrees_of_radians in I; rewrite E; split; intros; trivial; lra.
Qed.

Lemma offset_range (x : R) : 0 <= (1 - sin x) * 50 <= 100.
Proof. pose proof (SIN_bound x). lra. Qed.

(** C8. With [deg] the altitude in degrees, the gradient is the one of
    Day exactly when [deg > 5], of Twilight exactly when
    [-5 < deg <= 5], of Night exactly when [deg <= -5]; 5 degrees is
    Twilight and -5 degrees is Night. *)
Theorem getSkyGradient_classifies (a : R) :
  let deg := a * (180 / PI) in
  (getSkyGradient a = gradient Day <-> deg > 5)
  /\ (getSkyGradient a = gradient Twilight <-> -5 < deg <= 5)
  /\ (getSkyGradient a = gradient Night <-> deg <= -5)
  /\ (deg = 5 -> getSkyGradient a = gradient Twilight)
  /\ (deg = -5 -> getSkyGradient a = gradient Night)
  /\ getSkyGradient (5 * (PI / 180)) = gradient Twilight
  /\ getSkyGradient (-5 * (PI / 180)) = gradient Night.
Proof.
  intros deg.
  assert (T : getSkyGradient (5 * (PI / 180)) = gradient Twilight)
    by (apply getSkyGradient_of_degrees; lra).
  assert (N : getSkyGradient (-5 * (PI / 180)) = gradient Night)
    by (apply getSkyGradient_of_degrees; lra).
  destruct (getSkyGradient_cases a) as [[I E]|[[I E]|[I E]]]; fold deg in I;
    rewrite E; repeat split; intros;
    try reflexivity; try lra; try assumption;
    match goal with
    | X : gradient _ = gradient _ |- _ => apply gradient_inj in X; discriminate X
    end.
Qed.

(** C6. For a body at any altitude and azimuth the angle on the dial
    is [azimuth * (180 / PI) + 180] and the offset is
    [(1 - sin altitude) * 50], which lies in [[0, 100]]; at the zenith
    with azimuth 0 the offset is 0 and the angle 180, at the nadir the
    offset is 100.  The Sun and the Moon are placed alike. *)
Theorem projection_of_position (info : SkyInfo) (other : Position) :
  let zenith := mkPosition (PI / 2) 0 in
  let nadir := mkPosition (- (PI / 2)) 0 in
  (sunAngle (Some info) = azimuth (sunPosition info) * (180 / PI) + 180
   /\ sunAltitudeOffset (Some info) = (1 - sin (altitude (sunPosition info))) * 50
   /\ 0 <= sunAltitudeOffset (Some info) <= 100)
  /\ (moonAngle (Some info) = azimuth (moonPosition info) * (180 / PI) + 180
      /\ moonAltitudeOffset (Some info) = (1 - sin (altitude (moonPosition info))) * 50
      /\ 0 <= moonAltitudeOffset (Some info) <= 100)
  /\ (sunAltitudeOffset (Some (mkSkyInfo zenith other)) = 0
      /\ sunAngle (Some (mkSkyInfo zenith other)) = 180
      /\ sunAltitudeOffset (Some (mkSkyInfo nadir other)) = 100)
  /\ (moonAltitudeOffset (Some (mkSkyInfo other zenith)) = 0
      /\ moonAngle (Some (mkSkyInfo other zenith)) = 180
      /\ moonAltitudeOffset (Some (mkSkyInfo other nadir)) = 100).
Proof.
  simpl. unfold sunAngle, moonAngle. simpl.
  rewrite sin_neg, sin_PI2.
  pose proof (offset_range (altitude (sunPosition info))).
  pose proof (offset_range (altitude (moonPosition info))).
  repeat split; try reflexivity; lra.
Qed.

End SkyFacts.

(** ** The alarm *)

Module AppFacts.
Import JSDate App.
Local Open Scope Z_scope.

Section Facts.
Context `{Engine} `{SunCalc}.

Lemma strictEq_true (a b : Num) : strictEq a b = true <-> sameNumber a b.
Proof.
  unfold sameNumber. destruct a as [x|], b as [y|]; simpl; split.
  - intros E. apply Z.eqb_eq in E. subst. eauto.
  - intros (n & [= ->] & [= ->]). apply Z.eqb_refl.
  - discriminate.
  - intros (n & _ & [=]).
  - discriminate.
  - intros (n & [=] & _).
  - discriminate.
  - intros (n & [=] & _).
Qed.

Lemma alarmMatches_true (t : Z) (target : Date) :
  alarmMatches t target = true <-> ringCondition t target.
Proof.
  unfold alarmMatches, ringCondition.
  rewrite !andb_true_iff, !strictEq_true.
  split.
  - intros [[Hh Hm] (n & -> & [= <-])]. auto.
  - intros (Hh & Hm & Hs). repeat split; trivial. exists 0. auto.
Qed.

(** An Invalid Date as target matches no instant. *)
Lemma alarmMatches_invalid (t : Z) : alarmMatches t None = false.
Proof. reflexivity. Qed.

Lemma alarmEffect_ringing (s : AppState) :
  isAlarmRinging s = true -> alarmEffect s = s.
Proof.
  intros R. unfold alarmEffect. rewrite R. destruct (alarmTime s); reflexivity.
Qed.

Lemma alarmEffect_unset (s : AppState) :
  alarmTime s = None -> alarmEffect s = s.
Proof. intros E. unfold alarmEffect. rewrite E. reflexivity. Qed.

(** What the alarm effect does, case by case. *)
Lemma alarmEffect_cases (s : AppState) :
  (alarmEffect s = s
   /\ (isAlarmRinging s = true \/ alarmTime s = None
       \/ exists target, alarmTime s = Some target
                         /\ alarmMatches (now s) target = false))
  \/ (isAlarmRinging s = false
      /\ (exists target, alarmTime s = Some target
                         /\ alarmMatches (now s) target = true)
      /\ alarmEffect s = withAudio playAlarmSound (setIsAlarmRinging true s)).
Proof.
  unfold alarmEffect.
  destruct (alarmTime s) as [target|] eqn:A; [|left; auto].
  destruct (isAlarmRinging s) eqn:R; simpl; [left; auto|].
  destruct (alarmMatches (now s) target) eqn:M.
  - right. repeat split; eauto.
  - left. split; eauto.
Qed.

Lemma celestialEffect_frame (s : AppState) :
  now (celestialEffect s) = now s
  /\ alarmTime (celestialEffect s) = alarmTime s
  /\ isAlarmRinging (celestialEffect s) = isAlarmRinging s
  /\ localStorage (celestialEffect s) = localStorage s
  /\ audio (celestialEffect s) = audio s
  /\ location (celestialEffect s) = location s.
Proof.
  unfold celestialEffect.
  destruct (location s) eqn:L; simpl; rewrite ?L; repeat split; reflexivity.
Qed.

Lemma persistAlarm_frame (d : Date) (s : AppState) :
  now (fst (persistAlarm d s)) = now s
  /\ alarmTime (fst (persistAlarm d s)) = alarmTime s
  /\ isAlarmRinging (fst (persistAlarm d s)) = isAlarmRinging s
  /\ audio (fst (persistAlarm d s)) = audio s
  /\ celestialInfo (fst (persistAlarm d s)) = celestialInfo s
  /\ location (fst (persistAlarm d s)) = location s.
Proof. destruct d; simpl; repeat split; reflexivity. Qed.

(** Arming touches neither the ringing flag nor the audio handles. *)
Lemma setSunriseAlarm_frame (c1 c2 : Z) (s : AppState) :
  isAlarmRinging (fst (setSunriseAlarm c1 c2 s)) = isAlarmRinging s
  /\ audio (fst (setSunriseAlarm c1 c2 s)) = audio s
  /\ now (fst (setSunriseAlarm c1 c2 s)) = now s
  /\ celestialInfo (fst (setSunriseAlarm c1 c2 s)) = celestialInfo s
  /\ location (fst (setSunriseAlarm c1 c2 s)) = location s.
Proof.
  unfold setSunriseAlarm.
  destruct (celestialInfo s) as [info|] eqn:C;
    [|simpl; rewrite ?C; repeat split; reflexivity].
  destruct (JSDate.lt (sunrise info) (Some c1)).
  - destruct (location s) as [loc|] eqn:L;
      [|simpl; rewrite ?C, ?L; repeat split; reflexivity].
    match goal with |- context [persistAlarm ?d ?x] =>
      destruct (persistAlarm_frame d x) as (-> & _ & -> & -> & -> & ->) end.
    simpl. rewrite C, L. repeat split; reflexivity.
  - match goal with |- context [persistAlarm ?d ?x] =>
      destruct (persistAlarm_frame d x) as (-> & _ & -> & -> & -> & ->) end.
    simpl. rewrite C. repeat split; reflexivity.
Qed.

(** Every handler but the one of "Dismiss" leaves the ringing flag and
    the audio handles alone. *)
Lemma handle_frame (e : Event) (s : AppState) :
  isDismiss e = false ->
  isAlarmRinging (handle e s) = isAlarmRinging s /\ audio (handle e s) = audio s.
Proof.
  destruct e; simpl; intros D; try discriminate D; auto.
  destruct (setSunriseAlarm_frame clock1 clock2 s) as (-> & -> & _). auto.
Qed.

Lemma handle_dismiss_starts (c1 c2 : Z) (s : AppState) :
  starts (audio (handle (ClickDismiss c1 c2) s)) = starts (audio s).
Proof.
  simpl. unfold dismissAlarm.
  match goal with |- context [setSunriseAlarm c1 c2 ?x] =>
    destruct (setSunriseAlarm_frame c1 c2 x) as (_ & -> & _) end.
  simpl. unfold stopAlarmSound.
  destruct (oscillator (audio s) && audioContext (audio s)); reflexivity.
Qed.

Lemma step_keeps_ringing (e : Event) (s : AppState) :
  isDismiss e = false -> isAlarmRinging s = true ->
  step e s = celestialEffect (handle e s) /\ isAlarmRinging (step e s) = true.
Proof.
  intros D R. unfold step.
  destruct (handle_frame e s D) as [Hr _].
  destruct (celestialEffect_frame (handle e s)) as (_ & _ & Cr & _).
  assert (X : isAlarmRinging (celestialEffect (handle e s)) = true) by congruence.
  rewrite (alarmEffect_ringing _ X). auto.
Qed.

Lemma step_ringing_silent (e : Event) (s : AppState) :
  isDismiss e = false -> isAlarmRinging s = true -> startsTone e s = false.
Proof.
  intros D R. unfold startsTone.
  destruct (step_keeps_ringing e s D R) as [-> _].
  destruct (handle_frame e s D) as [_ Ha].
  destruct (celestialEffect_frame (handle e s)) as (_ & _ & _ & _ & -> & _).
  rewrite Ha. apply Nat.ltb_irrefl.
Qed.

Lemma startsTone_rings (e : Event) (s : AppState) :
  startsTone e s = true -> isAlarmRinging (step e s) = true.
Proof.
  unfold startsTone, step. intros T.
  destruct (alarmEffect_cases (celestialEffect (handle e s)))
    as [[E _]|(_ & _ & E)]; rewrite E in *; [|reflexivity].
  exfalso. apply Nat.ltb_lt in T.
  destruct (celestialEffect_frame (handle e s)) as (_ & _ & _ & _ & Ca & _).
  rewrite Ca in T.
  destruct e; simpl in T; try lia.
  - destruct (setSunriseAlarm_frame clock1 clock2 s) as (_ & X & _).
    rewrite X in T. lia.
  - pose proof (handle_dismiss_starts clock1 clock2 s) as X. simpl in X. lia.
Qed.

Lemma run_keeps_ringing (es : list Event) (s : AppState) :
  forallb (fun e => negb (isDismiss e)) es = true ->
  isAlarmRinging s = true -> isAlarmRinging (run es s) = true.
Proof.
  revert s. induction es as [|e es IH]; simpl; intros s N R; [exact R|].
  apply andb_true_iff in N as [Ne Nes]. apply negb_true_iff in Ne.
  apply IH; [exact Nes|]. apply step_keeps_ringing; assumption.
Qed.

Lemma no_dismiss_or_some (es : list Event) :
  forallb (fun e => negb (isDismiss e)) es = true
  \/ exists c1 c2, In (ClickDismiss c1 c2) es.
Proof.
  induction es as [|e es [IH|(c1 & c2 & IH)]]; simpl; auto.
  - destruct e; simpl; auto. right. exists clock1, clock2. auto.
  - right. exists c1, c2. auto.
Qed.

Lemma rings_once (s : AppState) (e1 : Event) (es : list Event) (e2 : Event) :
  startsTone e1 s = true ->
  startsTone e2 (run es (step e1 s)) = true ->
  exists c1 c2, In (ClickDismiss c1 c2) (es ++ [e2]).
Proof.
  intros T1 T2.
  destruct (no_dismiss_or_some (es ++ [e2])) as [N|D]; [exfalso|exact D].
  rewrite forallb_app in N. apply andb_true_iff in N as [Nes Ne2].
  simpl in Ne2. rewrite andb_true_r in Ne2. apply negb_true_iff in Ne2.
  pose proof (run_keeps_ringing es _ Nes (startsTone_rings _ _ T1)) as R.
  rewrite (step_ringing_silent e2 _ Ne2 R) in T2. discriminate T2.
Qed.


(** C3. While the alarm is armed and not ringing, a tick makes it ring
    and starts the tone exactly when the hours and the minutes of the
    instant and of the target agree and the second is 0; and between
    two renders that start the tone there is always a dismissal. *)
Theorem alarm_rings_on_match_and_once :
  (forall (s : AppState) (t : Z) (target : Date),
     alarmTime s = Some target -> isAlarmRinging s = false ->
     (ringCondition t target ->
        alarmState (step (Tick t) s) = Ringing
        /\ startsTone (Tick t) s = true
        /\ oscillator (audio (step (Tick t) s)) = true)
     /\ (~ ringCondition t target ->
        alarmState (step (Tick t) s) = Armed target
        /\ startsTone (Tick t) s = false
        /\ audio (step (Tick t) s) = audio s))
  /\ (forall (s : AppState) (e1 : Event) (es : list Event) (e2 : Event),
       startsTone e1 s = true ->
       startsTone e2 (run es (step e1 s)) = true ->
       exists c1 c2, In (ClickDismiss c1 c2) (es ++ [e2])).
Proof.
  split; [|exact rings_once].
  intros s t target A R.
  assert (E : celestialEffect (handle (Tick t) s)
              = celestialEffect (setNow t s)) by reflexivity.
  destruct (celestialEffect_frame (setNow t s)) as (Cn & Ca & Cr & _ & Cau & _).
  simpl in Cn, Ca, Cr, Cau.
  unfold startsTone, alarmState, step. rewrite E.
  unfold alarmEffect. rewrite Ca, A, Cr, R, Cn. simpl.
  split; intros M.
  - apply alarmMatches_true in M. rewrite M. simpl.
    rewrite Cau. repeat split. apply Nat.ltb_lt. lia.
  - destruct (alarmMatches t target) eqn:X.
    + exfalso. apply M, alarmMatches_true, X.
    + rewrite Cr, R, Ca, A, Cau. repeat split. apply Nat.ltb_irrefl.
Qed.

Lemma getHours_day_shift (t k : Z) :
  getHours (Some (t + k * msPerDay)) = getHours (Some t).
Proof.
  unfold getHours, localTime, msPerDay, msPerHour. simpl. f_equal.
  replace (t + k * 86400000 + LocalTZA)
    with (t + LocalTZA + (24 * k) * 3600000) by lia.
  rewrite Z.div_add by lia.
  rewrite Z.add_mod, (Z.mul_comm 24 k), Z.mod_mul, Z.add_0_r, Z.mod_mod; lia.
Qed.

Lemma getMinutes_day_shift (t k : Z) :
  getMinutes (Some (t + k * msPerDay)) = getMinutes (Some t).
Proof.
  unfold getMinutes, localTime, msPerDay, msPerMinute. simpl. f_equal.
  replace (t + k * 86400000 + LocalTZA)
    with (t + LocalTZA + (60 * (24 * k)) * 60000) by lia.
  rewrite Z.div_add by lia.
  rewrite Z.add_mod, (Z.mul_comm 60 (24 * k)), Z.mod_mul, Z.add_0_r, Z.mod_mod; lia.
Qed.

(** The comparison of the alarm effect does not see the day of the
    target. *)
Lemma alarmMatches_day_shift (t target k : Z) :
  alarmMatches t (Some (target + k * msPerDay)) = alarmMatches t (Some target).
Proof.
  unfold alarmMatches. rewrite getHours_day_shift, getMinutes_day_shift.
  reflexivity.
Qed.

Lemma reachable_run (es : list Event) (s : AppState) :
  reachable s -> runEnabled es s = true -> reachable (run es s).
Proof.
  revert s. induction es as [|e es IH]; simpl; intros s R E; [exact R|].
  apply andb_true_iff in E as [Ee Ees].
  apply IH; [|exact Ees]. apply reachable_step; assumption.
Qed.


Lemma alarmEffect_consistent (s : AppState) :
  audioConsistent s -> audioConsistent (alarmEffect s).
Proof.
  intros I. destruct (alarmEffect_cases s) as [[-> _]|(_ & _ & ->)]; [exact I|].
  split; reflexivity.
Qed.

Lemma celestialEffect_consistent (s : AppState) :
  audioConsistent s -> audioConsistent (celestialEffect s).
Proof.
  unfold audioConsistent.
  destruct (celestialEffect_frame s) as (_ & _ & -> & _ & -> & _). trivial.
Qed.

Lemma stopAlarmSound_silent (a : Audio) :
  (oscillator a = true -> audioContext a = true) ->
  oscillator (stopAlarmSound a) = false
  /\ (oscillator a = true -> stops (stopAlarmSound a) = S (stops a)).
Proof.
  unfold stopAlarmSound. intros I.
  destruct (oscillator a) eqn:O; simpl.
  - rewrite (I eq_refl). simpl. auto.
  - rewrite O. split; [reflexivity | discriminate].
Qed.

Lemma handle_consistent (e : Event) (s : AppState) :
  audioConsistent s -> audioConsistent (handle e s).
Proof.
  intros [Ic Ir]. destruct (isDismiss e) eqn:D.
  - destruct e; try discriminate D. simpl. unfold dismissAlarm, audioConsistent.
    match goal with |- context [setSunriseAlarm _ _ ?x] =>
      destruct (setSunriseAlarm_frame clock1 clock2 x) as (-> & -> & _) end.
    simpl. destruct (stopAlarmSound_silent _ Ic) as [-> _].
    split; discriminate.
  - unfold audioConsistent.
    destruct (handle_frame e s D) as [-> ->]. auto.
Qed.

(** The states the component reaches keep the audio handles
    consistent. *)
Lemma reachable_consistent (s : AppState) : reachable s -> audioConsistent s.
Proof.
  induction 1 as [storage now0|e s R IH E].
  - apply alarmEffect_consistent, celestialEffect_consistent.
    split; discriminate.
  - apply alarmEffect_consistent, celestialEffect_consistent,
      handle_consistent, IH.
Qed.

Abbreviation key := "sunriseAlarm"%string.

Lemma setSunriseAlarm_not_past (s : AppState) (info : CelestialInfo)
    (c1 c2 rise : Z) :
  celestialInfo s = Some info -> sunrise info = Some rise -> c1 <= rise ->
  setSunriseAlarm c1 c2 s
  = (withLocalStorage (insert key (Date_toISOString rise))
       (setAlarmTime (Some (Some rise)) s), Normal).
Proof.
  intros C S L. unfold setSunriseAlarm. rewrite C, S. simpl.
  destruct (rise <? c1) eqn:X; [apply Z.ltb_lt in X; lia|]. reflexivity.
Qed.

Lemma setSunriseAlarm_past (s : AppState) (info : CelestialInfo)
    (c1 c2 rise : Z) (loc : Location) :
  celestialInfo s = Some info -> sunrise info = Some rise -> rise < c1 ->
  location s = Some loc ->
  let next := sunrise (getTimes (addOneDay (Some c2)) loc) in
  setSunriseAlarm c1 c2 s = persistAlarm next (setAlarmTime (Some next) s).
Proof.
  intros C S L Loc. unfold setSunriseAlarm. rewrite C, S, Loc. simpl.
  destruct (rise <? c1) eqn:X; [reflexivity|apply Z.ltb_ge in X; lia].
Qed.


(** A tick that does not match leaves an armed alarm as it is. *)
Lemma tick_no_match (s : AppState) (t : Z) (target : Date) :
  alarmTime s = Some target -> isAlarmRinging s = false ->
  alarmMatches t target = false ->
  alarmTime (step (Tick t) s) = Some target
  /\ isAlarmRinging (step (Tick t) s) = false
  /\ audio (step (Tick t) s) = audio s.
Proof.
  intros A R M. unfold step.
  destruct (celestialEffect_frame (handle (Tick t) s))
    as (Cn & Ca & Cr & _ & Cau & _).
  simpl in Cn, Ca, Cr, Cau.
  destruct (alarmEffect_cases (celestialEffect (handle (Tick t) s)))
    as [[-> _]|(_ & (target' & A' & M') & _)].
  - simpl. rewrite Ca, Cr, Cau. auto.
  - simpl in A', M'. rewrite Ca, A in A'. injection A' as <-.
    rewrite Cn in M'. congruence.
Qed.

Lemma invalid_target_never_rings (ticks : list Z) (s : AppState) :
  alarmTime s = Some None -> isAlarmRinging s = false ->
  alarmState (run (map Tick ticks) s) = Armed None.
Proof.
  revert s. induction ticks as [|t ticks IH]; simpl; intros s A R.
  - unfold alarmState. rewrite R, A. reflexivity.
  - destruct (tick_no_match s t None A R (alarmMatches_invalid t)) as (A' & R' & _).
    apply IH; assumption.
Qed.

Lemma mount_alarm (storage : gmap string string) (now0 : Z) :
  mount storage now0 = alarmEffect (initialState storage now0).
Proof. reflexivity. Qed.

(** What dismissing does in a ringing state with a snapshot at hand:
    it clears the ringing flag, stops the tone and arms again, with the
    sunrise of the snapshot when that is not earlier than the instant
    of dismissal, and otherwise with the sunrise the library computes
    for that instant + 1 day. *)
Lemma dismissAlarm_rearms (s : AppState) (info : CelestialInfo) (c1 c2 : Z) :
  reachable s -> isAlarmRinging s = true -> celestialInfo s = Some info ->
  let r := dismissAlarm c1 c2 s in
  (isAlarmRinging (fst r) = false
   /\ oscillator (audio (fst r)) = false
   /\ stops (audio (fst r)) = S (stops (audio s)))
  /\ (forall rise : Z, sunrise info = Some rise -> c1 <= rise ->
       alarmState (fst r) = Armed (Some rise)
       /\ localStorage (fst r) !! key = Some (Date_toISOString rise))
  /\ (forall (rise : Z) (loc : Location),
       sunrise info = Some rise -> rise < c1 -> location s = Some loc ->
       alarmState (fst r) = Armed (sunrise (getTimes (addOneDay (Some c2)) loc))).
Proof.
  intros Re R C r. subst r. unfold dismissAlarm.
  set (quiet := withAudio stopAlarmSound (setIsAlarmRinging false s)).
  destruct (reachable_consistent s Re) as [Ic Ir].
  destruct (stopAlarmSound_silent (audio s) Ic) as [Silent Stopped].
  destruct (setSunriseAlarm_frame c1 c2 quiet) as (Fr & Fa & _).
  assert (Cq : celestialInfo quiet = Some info) by exact C.
  split; [|split].
  - rewrite Fr, Fa. simpl. auto.
  - intros rise S L. unfold alarmState. rewrite Fr. simpl.
    rewrite (setSunriseAlarm_not_past quiet info c1 c2 rise Cq S L). simpl.
    split; [reflexivity | apply lookup_insert_eq].
  - intros rise loc S L Loc. unfold alarmState. rewrite Fr. simpl.
    rewrite (setSunriseAlarm_past quiet info c1 c2 rise loc Cq S L Loc).
    match goal with |- context [persistAlarm ?d ?x] =>
      destruct (persistAlarm_frame d x) as (_ & -> & _) end. reflexivity.
Qed.

(** C7 (amended). At startup an absent key, like an empty string,
    gives Unset.  A stored string that the engine cannot read as a date
    gives an alarm time that is an Invalid Date: the alarm shows as set,
    and no sequence of ticks makes it ring.  A string the engine reads
    gives that instant as alarm time. *)
Theorem initial_alarm_state (storage : gmap string string) (now0 : Z) :
  (storage !! key = None -> alarmState (mount storage now0) = Unset)
  /\ (storage !! key = Some ""%string -> alarmState (mount storage now0) = Unset)
  /\ (forall saved : string,
       storage !! key = Some saved -> saved <> ""%string ->
       Date_parse saved = None ->
       alarmTime (mount storage now0) = Some None
       /\ alarmState (mount storage now0) = Armed None
       /\ forall ticks : list Z,
            alarmState (run (map Tick ticks) (mount storage now0)) = Armed None)
  /\ (forall (saved : string) (t : Z),
       storage !! key = Some saved -> saved <> ""%string ->
       Date_parse saved = Some t ->
       alarmTime (mount storage now0) = Some (Some t)).
Proof.
  split; [|split; [|split]].
  - intros K.
    assert (A : initialAlarmTime storage = None)
      by (unfold initialAlarmTime; rewrite K; reflexivity).
    rewrite mount_alarm, alarmEffect_unset by exact A.
    unfold alarmState. simpl. rewrite A. reflexivity.
  - intros K.
    assert (A : initialAlarmTime storage = None)
      by (unfold initialAlarmTime; rewrite K; reflexivity).
    rewrite mount_alarm, alarmEffect_unset by exact A.
    unfold alarmState. simpl. rewrite A. reflexivity.
  - intros saved K Ne P. apply String.eqb_neq in Ne.
    assert (A : initialAlarmTime storage = Some None)
      by (unfold initialAlarmTime; rewrite K, Ne, P; reflexivity).
    assert (M : mount storage now0 = initialState storage now0).
    { rewrite mount_alarm. unfold alarmEffect. simpl. rewrite A. reflexivity. }
    rewrite M. split; [exact A|]. split.
    + unfold alarmState. simpl. rewrite A. reflexivity.
    + intros ticks. apply invalid_target_never_rings; [exact A | reflexivity].
  - intros saved t K Ne P. apply String.eqb_neq in Ne.
    assert (A : initialAlarmTime storage = Some (Some t))
      by (unfold initialAlarmTime; rewrite K, Ne, P; reflexivity).
    rewrite mount_alarm. unfold alarmEffect. simpl. rewrite A. simpl.
    destruct (alarmMatches now0 (Some t)); exact A.
Qed.

Lemma step_clear (s : AppState) :
  alarmTime (step ClickClear s) = None
  /\ localStorage (step ClickClear s) = delete key (localStorage s)
  /\ isAlarmRinging (step ClickClear s) = isAlarmRinging s
  /\ audio (step ClickClear s) = audio s.
Proof.
  unfold step.
  destruct (celestialEffect_frame (handle ClickClear s))
    as (_ & Ca & Cr & Cs & Cau & _).
  rewrite alarmEffect_unset by (rewrite Ca; reflexivity).
  rewrite Ca, Cr, Cs, Cau. repeat split.
Qed.

(** C9 (amended). Clearing sets the alarm time to null and removes the
    stored key, and touches neither the ringing flag nor the tone: from
    Armed the alarm becomes Unset; on an alarm that is Unset with
    nothing stored it changes nothing, and it leaves no stored key;
    clearing twice is clearing once. *)
Theorem clearAlarm_unsets (s : AppState) :
  (alarmTime (clearAlarm s) = None
   /\ localStorage (clearAlarm s) !! key = None
   /\ isAlarmRinging (clearAlarm s) = isAlarmRinging s
   /\ audio (clearAlarm s) = audio s)
  /\ (forall target : Date, alarmState s = Armed target ->
       alarmState (clearAlarm s) = Unset
       /\ alarmState (step ClickClear s) = Unset
       /\ localStorage (step ClickClear s) !! key = None)
  /\ (alarmState s = Unset ->
       alarmState (clearAlarm s) = Unset
       /\ localStorage (clearAlarm s) !! key = None
       /\ (localStorage s !! key = None -> clearAlarm s = s))
  /\ clearAlarm (clearAlarm s) = clearAlarm s.
Proof.
  destruct (step_clear s) as (Sa & Ss & Sr & _).
  split; [|split; [|split]].
  - repeat split. apply lookup_delete_eq.
  - intros target A. unfold alarmState in *. rewrite Sr, Sa, Ss. simpl.
    destruct (isAlarmRinging s); [discriminate A|].
    repeat split. apply lookup_delete_eq.
  - intros U. unfold alarmState in *. simpl.
    destruct (isAlarmRinging s) eqn:R; [discriminate U|].
    destruct (alarmTime s) as [target|] eqn:A; [discriminate U|].
    repeat split; [apply lookup_delete_eq|].
    intros K. destruct s; simpl in *. unfold clearAlarm, withLocalStorage. simpl.
    rewrite delete_id by exact K. congruence.
  - unfold clearAlarm, withLocalStorage. simpl. rewrite delete_delete_eq.
    reflexivity.
Qed.

End Facts.

(** *** Runs in autumn, on the reference engine *)

Section AutumnExamples.
Import Scenario.
#[local] Existing Instance UTCEngine.engine.
#[local] Existing Instance autumn.

Lemma armedForTomorrow_reachable : reachable armedForTomorrow.
Proof. apply reachable_run; [apply reachable_mount | reflexivity]. Qed.

Lemma reopened_reachable : reachable reopened.
Proof. apply reachable_mount. Qed.

Lemma ringingBeforeSunrise_reachable : reachable ringingBeforeSunrise.
Proof. apply reachable_run; [apply reachable_mount | reflexivity]. Qed.

Lemma ringingAtSunrise_reachable : reachable ringingAtSunrise.
Proof.
  apply reachable_step; [apply ringingBeforeSunrise_reachable | reflexivity].
Qed.

(** The snapshot of the day: sunrise at 06:30:40.250. *)
Lemma snapshot_of_day0 :
  celestialInfo armedForTomorrow = Some (laterEachDay (Some (at_ 0 6 31 0 0)))
  /\ celestialInfo ringingBeforeSunrise = Some (laterEachDay (Some (at_ 0 6 30 0 0)))
  /\ sunrise (laterEachDay (Some (at_ 0 6 31 0 0))) = Some sunriseInstant
  /\ sunrise (laterEachDay (Some (at_ 0 6 30 0 0))) = Some sunriseInstant.
Proof. repeat split. Qed.

(** C10. The comparison of the alarm effect is the same for a target
    and for that target moved by any number of days.  So an alarm set
    at 06:31:00.4 for the sunrise of the next morning (06:32:10.250)
    rings at 06:32:00 of the same morning, more than a day before its
    target; so does an alarm for the next morning that the page finds
    stored when it is opened; and an alarm stored for a morning one
    week back rings at its hour and minute of today. *)
Theorem alarm_ignores_target_date :
  (forall (E : Engine) (t0 target0 k : Z),
     alarmMatches t0 (Some (target0 + k * msPerDay))
     = alarmMatches t0 (Some target0))
  /\ (reachable armedForTomorrow
      /\ alarmState armedForTomorrow = Armed (Some sunriseOfDay1)
      /\ tickOfDay0 / msPerDay < sunriseOfDay1 / msPerDay
      /\ tickOfDay0 + msPerDay < sunriseOfDay1
      /\ alarmState (step (Tick tickOfDay0) armedForTomorrow) = Ringing
      /\ startsTone (Tick tickOfDay0) armedForTomorrow = true)
  /\ (reachable reopened
      /\ alarmState reopened = Armed (Some sunriseOfDay1)
      /\ alarmState (step (Tick tickOfDay0) reopened) = Ringing
      /\ startsTone (Tick tickOfDay0) reopened = true)
  /\ (reachable reopenedLate
      /\ alarmState reopenedLate = Armed (Some (at_ (-7) 6 20 10 250))
      /\ alarmState (step (Tick (at_ 0 6 20 0 0)) reopenedLate) = Ringing).
Proof.
  split; [|split; [|split]].
  - intros E t0 target0 k. apply alarmMatches_day_shift.
  - split; [apply armedForTomorrow_reachable|]. vm_compute. repeat split.
  - split; [apply reopened_reachable|]. vm_compute. repeat split.
  - split; [apply reachable_mount|]. vm_compute. repeat split.
Qed.

Lemma ringingForFiveSeconds_reachable : reachable ringingForFiveSeconds.
Proof.
  apply reachable_step; [apply ringingBeforeSunrise_reachable | reflexivity].
Qed.

(** C5.  The specification asks that dismissing arm a target strictly
    later than the instant of dismissal, the sunrise of the next day.
    The alarm set for the sunrise of 06:30:40.250 rings at 06:30:00,
    before its target, and the handler arms again with the sunrise of
    the snapshot unless that is already past.  Dismissed at 06:30:40.250
    the alarm is armed with this very instant, and no later target is
    set; dismissed at 06:30:05 it is armed with the sunrise of the same
    morning, not of the next; dismissed at 06:30:00.7, before the next
    tick, it rings again in the same render. *)
Theorem dismiss_rearms_same_morning :
  (reachable ringingAtSunrise
   /\ alarmState ringingAtSunrise = Ringing
   /\ enabled (ClickDismiss sunriseInstant sunriseInstant) ringingAtSunrise = true
   /\ alarmState (fst dismissedAtSunrise) = Armed (Some sunriseInstant)
   /\ ~ (exists target : Z,
           alarmState (fst dismissedAtSunrise) = Armed (Some target)
           /\ sunriseInstant < target))
  /\ (reachable ringingForFiveSeconds
      /\ alarmState ringingForFiveSeconds = Ringing
      /\ alarmState (fst dismissedEarly) = Armed (Some sunriseInstant)
      /\ sunriseInstant / msPerDay = at_ 0 6 30 5 0 / msPerDay
      /\ sunriseInstant <> sunriseOfDay1)
  /\ (reachable ringingBeforeSunrise
      /\ alarmState ringingBeforeSunrise = Ringing
      /\ alarmState dismissedAtOnce = Ringing
      /\ starts (audio dismissedAtOnce) = S (starts (audio ringingBeforeSunrise))).
Proof.
  split; [|split].
  - split; [apply ringingAtSunrise_reachable|].
    repeat split.
    intros (target & A & L). vm_compute in A. injection A as <-.
    vm_compute in L. discriminate L.
  - split; [apply ringingForFiveSeconds_reachable|].
    repeat split. discriminate.
  - split; [apply ringingBeforeSunrise_reachable|].
    repeat split.
Qed.


(** C9, counterexample.  "Clear Alarm" while the alarm rings: the
    alarm time and the stored key go, but the alarm keeps ringing and
    the tone keeps sounding; the state is not Unset. *)
Lemma clear_while_ringing :
  reachable ringingAtSunrise
  /\ alarmState ringingAtSunrise = Ringing
  /\ enabled ClickClear ringingAtSunrise = true
  /\ alarmState (clearAlarm ringingAtSunrise) = Ringing
  /\ alarmState (step ClickClear ringingAtSunrise) = Ringing
  /\ oscillator (audio (step ClickClear ringingAtSunrise)) = true
  /\ alarmState (step ClickClear ringingAtSunrise) <> Unset.
Proof.
  split; [apply ringingAtSunrise_reachable|].
  repeat split. discriminate.
Qed.

(** C7, counterexample.  The stored string "not-a-date" is read as an
    Invalid Date, and the alarm starts as set, with that target: not
    Unset. *)
Lemma malformed_alarm_is_armed :
  malformed !! "sunriseAlarm" = Some "not-a-date"%string
  /\ Date_parse "not-a-date" = None
  /\ alarmTime (mount malformed (at_ 0 6 0 0 0)) = Some None
  /\ alarmState (mount malformed (at_ 0 6 0 0 0)) = Armed None
  /\ alarmState (mount malformed (at_ 0 6 0 0 0)) <> Unset.
Proof. repeat split. discriminate. Qed.

End AutumnExamples.

(** *** A run at the onset of the polar night *)

Section PolarExamples.
Import Scenario.
#[local] Existing Instance UTCEngine.engine.
#[local] Existing Instance polarNight.



End PolarExamples.

End AppFacts.

(* ================================================================== *)
(** * Part III. Further properties of the code *)
(* ================================================================== *)

(** ** The moon phase and its display *)

Module CelestialMore.
Import Celestial MoonDisplay CelestialFacts.
Local Open Scope Q_scope.
Local Ltac lra := Lqa.lra.
Local Ltac nra := Lqa.nra.

Lemma Qtrunc_is_floor (x : Q) : 0 <= x -> JSNum.Qtrunc x = Qfloor x.
Proof.
  intros P. destruct x as [n d]. unfold JSNum.Qtrunc, Qfloor; simpl.
  apply Z.quot_div_nonneg; [|reflexivity].
  unfold Qle in P; simpl in P. lia.
Qed.



(** On a dividend that is not negative the remainder of the code is
    the mathematical modulo. *)
Lemma rem_is_floorMod (a b : Q) :
  0 <= a -> 0 < b -> JSNum.rem a b = JSNum.floorMod a b.
Proof.
  intros Pa Pb. unfold JSNum.rem, JSNum.floorMod.
  rewrite Qtrunc_is_floor; [reflexivity|].
  apply Qle_shift_div_l; lra.
Qed.

(** On a negative dividend it is one divisor below, unless it is 0. *)
Lemma rem_below_floorMod (a b : Q) :
  a <= 0 -> 0 < b -> ~ JSNum.rem a b == 0 ->
  JSNum.floorMod a b == JSNum.rem a b + b.
Proof.
  intros Na Pb NZ. unfold JSNum.rem, JSNum.floorMod in *.
  assert (Nq : a / b <= 0) by (apply Qle_shift_div_r; lra).
  destruct (Qtrunc_nonpos (a / b) Nq) as [TL TU].
  pose proof (Qfloor_le (a / b)) as FL. pose proof (Qlt_floor (a / b)) as FU.
  rewrite inject_Z_plus in FU. change (inject_Z 1) with 1 in FU.
  assert (E : a == b * (a / b)) by (field; lra).
  set (T := JSNum.Qtrunc (a / b)) in *. set (F := Qfloor (a / b)) in *.
  assert (A : inject_Z F <= inject_Z T) by lra.
  assert (B : inject_Z T < inject_Z (F + 2))
    by (rewrite inject_Z_plus; change (inject_Z 2) with 2; lra).
  rewrite <- Zle_Qle in A. rewrite <- Zlt_Qlt in B.
  assert (C : T = F \/ T = (F + 1)%Z) by lia.
  destruct C as [C|C].
  - exfalso. apply NZ. rewrite C in *.
    assert (Q0 : a / b == inject_Z F) by lra.
    rewrite E at 1. rewrite Q0. ring.
  - rewrite C, inject_Z_plus. change (inject_Z 1) with 1. ring.
Qed.



(** X1. From the reference new moon on, the age is the mathematical
    modulo of the days by the lunar month: it lies in
    [[0, LUNAR_MONTH)] and the fraction in [[0, 1)]. *)
Theorem getMoonPhase_from_epoch_is_modulo (t : Z) :
  (KNOWN_NEW_MOON <= t)%Z ->
  age (getMoonPhase t) = JSNum.floorMod (daysSinceKnownNewMoon t) LUNAR_MONTH
  /\ 0 <= age (getMoonPhase t) /\ age (getMoonPhase t) < LUNAR_MONTH
  /\ 0 <= fraction (getMoonPhase t) /\ fraction (getMoonPhase t) < 1.
Proof.
  intros I. split; [|apply getMoonPhase_range_from_epoch, I].
  simpl. apply rem_is_floorMod; [apply days_sign, I | apply LUNAR_MONTH_pos].
Qed.

Lemma getMoonPhase_from_epoch_is_modulo_witness :
  (KNOWN_NEW_MOON <= 1700000000000)%Z
  /\ 0 <= age (getMoonPhase 1700000000000)
  /\ age (getMoonPhase 1700000000000) < LUNAR_MONTH.
Proof.
  assert (I : (KNOWN_NEW_MOON <= 1700000000000)%Z) by (vm_compute; discriminate).
  destruct (getMoonPhase_from_epoch_is_modulo 1700000000000 I) as (_ & L & U & _).
  split; [exact I | split; [exact L | exact U]].
Defined.

(** X2. Before the reference new moon the age lies in
    [(-LUNAR_MONTH, 0]], the phase is NewMoon whatever the instant, and
    unless the age is 0 it is exactly one lunar month below the
    mathematical modulo. *)
Theorem getMoonPhase_before_epoch_month_below (t : Z) :
  (t < KNOWN_NEW_MOON)%Z ->
  - LUNAR_MONTH < age (getMoonPhase t) /\ age (getMoonPhase t) <= 0
  /\ phase (getMoonPhase t) = NewMoon
  /\ (~ age (getMoonPhase t) == 0 ->
      JSNum.floorMod (daysSinceKnownNewMoon t) LUNAR_MONTH
      == age (getMoonPhase t) + LUNAR_MONTH).
Proof.
  intros I. destruct (getMoonPhase_before_epoch t I) as (L & U & _ & P).
  repeat split; trivial.
  simpl. intros NZ. apply rem_below_floorMod; trivial.
  - apply Qlt_le_weak, days_sign, I.
  - apply LUNAR_MONTH_pos.
Qed.

Lemma getMoonPhase_before_epoch_month_below_witness :
  (Scenario.tenDaysBefore < KNOWN_NEW_MOON)%Z
  /\ phase (getMoonPhase Scenario.tenDaysBefore) = NewMoon
  /\ age (getMoonPhase Scenario.tenDaysBefore) <= 0.
Proof.
  assert (I : (Scenario.tenDaysBefore < KNOWN_NEW_MOON)%Z) by reflexivity.
  destruct (getMoonPhase_before_epoch_month_below _ I) as (_ & U & P & _).
  split; [exact I | split; [exact P | exact U]].
Defined.





(** X4. Within a cycle the phases never go back: as the fraction grows
    from 0 towards .97, the phase keeps its place or moves on in the
    order NewMoon, WaxingCrescent, FirstQuarter, WaxingGibbous,
    FullMoon, WaningGibbous, ThirdQuarter, WaningCrescent. *)
Theorem phase_never_goes_back (f g : Q) :
  0 <= f -> f <= g -> g < 97 # 100 ->
  (phaseRank (phaseOfFraction f) <= phaseRank (phaseOfFraction g))%nat.
Proof.
  intros L M U.
  assert (Bf : band (phaseOfFraction f) f) by (apply band_cover; lra).
  assert (Bg : band (phaseOfFraction g) g) by (apply band_cover; lra).
  destruct (phaseOfFraction f), (phaseOfFraction g); simpl in *;
    try lia; exfalso; lra.
Qed.

Lemma phase_never_goes_back_witness :
  (0 <= 1 # 10 /\ 1 # 10 <= 1 # 2 /\ 1 # 2 < 97 # 100)
  /\ (phaseRank (phaseOfFraction (1 # 10)) <= phaseRank (phaseOfFraction (1 # 2)))%nat.
Proof.
  assert (A : 0 <= 1 # 10) by (vm_compute; discriminate).
  assert (B : 1 # 10 <= 1 # 2) by (vm_compute; discriminate).
  assert (C : 1 # 2 < 97 # 100) by reflexivity.
  split; [split; [exact A | split; [exact B | exact C]]|].
  exact (phase_never_goes_back (1 # 10) (1 # 2) A B C).
Defined.



End CelestialMore.

(** ** The bodies on the dial *)

Module BodyFacts.
Import Sky Body SkyFacts.
Local Open Scope R_scope.

Lemma gt_true (a b : R) : gt a b = true <-> a > b.
Proof.
  unfold gt. destruct (Rgt_dec a b); split; trivial; try discriminate.
  contradiction.
Qed.

Lemma gt_false (a b : R) : gt a b = false <-> a <= b.
Proof.
  unfold gt. destruct (Rgt_dec a b); split; trivial; try discriminate; lra.
Qed.

Lemma PI_gt_2 : 2 < PI.
Proof. pose proof PI2_1. lra. Qed.

(** The altitude in degrees has the sign of the altitude, and more. *)
Lemma degrees_bounds (a : R) :
  (a * (180 / PI) > 5 -> a > 0)
  /\ (a * (180 / PI) <= -5 -> a <= - (17 / 1000)).
Proof.
  pose proof PI_gt_2 as P.
  assert (E : a = a * (180 / PI) * (PI / 180)) by (field; lra).
  set (deg := a * (180 / PI)) in *.
  assert (K : 0 < PI / 180) by lra.
  assert (K2 : 1 / 90 < PI / 180) by lra.
  split; intros D; rewrite E; nra.
Qed.

(** How the two bodies show, by the altitudes of the Sun and the Moon. *)
Lemma moon_sun_cases (info : SkyInfo) :
  let sun := altitude (sunPosition info) in
  let moon := altitude (moonPosition info) in
  (sunVisibility info = "opacity-100"%string <-> sun > 0)
  /\ (sunVisibility info = "opacity-0"%string <-> sun <= 0)
  /\ (moonVisibility info = "opacity-0"%string <-> moon <= 0)
  /\ (moonVisibility info = "opacity-40"%string <-> moon > 0 /\ sun > - (17 / 1000))
  /\ (moonVisibility info = "opacity-100"%string <-> moon > 0 /\ sun <= - (17 / 1000))
  /\ (moonVisibility info = "opacity-100"%string ->
      sunVisibility info = "opacity-0"%string).
Proof.
  intros sun moon. unfold sunVisibility, moonVisibility, visibilityClass.
  fold sun moon.
  destruct (gt sun 0) eqn:S, (gt moon 0) eqn:M, (gt sun (- (17 / 1000))) eqn:D;
    simpl;
    repeat match goal with
    | H : gt _ _ = true |- _ => apply gt_true in H
    | H : gt _ _ = false |- _ => apply gt_false in H
    end;
    repeat split; intros; try discriminate; try reflexivity; try lra;
    match goal with
    | H : _ /\ _ |- _ => destruct H; lra
    end.
Qed.

(** X6. The Sun shows fully or not at all, as it is above the horizon
    or not; the Moon is dimmed exactly when it is above the horizon
    while the Sun is higher than -0.017 rad; and the Moon is never at
    full opacity while the Sun shows. *)
Theorem moon_full_only_without_sun (info : SkyInfo) :
  let sun := altitude (sunPosition info) in
  let moon := altitude (moonPosition info) in
  (sunVisibility info = "opacity-100"%string <-> sun > 0)
  /\ (sunVisibility info = "opacity-0"%string <-> sun <= 0)
  /\ (moonVisibility info = "opacity-0"%string <-> moon <= 0)
  /\ (moonVisibility info = "opacity-40"%string <-> moon > 0 /\ sun > - (17 / 1000))
  /\ (moonVisibility info = "opacity-100"%string <-> moon > 0 /\ sun <= - (17 / 1000))
  /\ (moonVisibility info = "opacity-100"%string ->
      sunVisibility info = "opacity-0"%string).
Proof. exact (moon_sun_cases info). Qed.

(** X7. The sky and the bodies agree: under the gradient of the day
    the Sun shows and the Moon is not at full opacity; under the
    gradient of the night the Sun is hidden and the Moon is not
    dimmed. *)
Theorem gradient_agrees_with_bodies (info : SkyInfo) :
  let sky := getSkyGradient (altitude (sunPosition info)) in
  (sky = gradient Day ->
   sunVisibility info = "opacity-100"%string
   /\ moonVisibility info <> "opacity-100"%string)
  /\ (sky = gradient Night ->
      sunVisibility info = "opacity-0"%string
      /\ moonVisibility info <> "opacity-40"%string).
Proof.
  intros sky.
  destruct (moon_sun_cases info) as (S1 & S0 & _ & M40 & M100 & _).
  destruct (degrees_bounds (altitude (sunPosition info))) as [Dd Dn].
  destruct (getSkyGradient_cases (altitude (sunPosition info)))
    as [[I E]|[[I E]|[I E]]]; fold sky in E; rewrite E;
    split; intros X; try (apply gradient_inj in X; discriminate X).
  - split; [apply S1, Dd, I|]. intros C. apply M100 in C. specialize (Dd I). lra.
  - split; [apply S0; specialize (Dn I); lra|].
    intros C. apply M40 in C. specialize (Dn I). lra.
Qed.

(** X8. For an altitude between -PI/2 and PI/2 the offset tells the
    side of the horizon: a higher body never has a larger offset, the
    offset is 50 on the horizon, and it is below 50 exactly when the
    body is above the horizon, that is, for the Sun, exactly when the
    Sun shows. *)
Theorem offset_follows_altitude (a b azimuthRadians : R) (other : Position) :
  - (PI / 2) <= a -> a <= b -> b <= PI / 2 ->
  (sunAltitudeOffset (Some (mkSkyInfo (mkPosition b azimuthRadians) other))
   <= sunAltitudeOffset (Some (mkSkyInfo (mkPosition a azimuthRadians) other))
   /\ moonAltitudeOffset (Some (mkSkyInfo other (mkPosition b azimuthRadians)))
      <= moonAltitudeOffset (Some (mkSkyInfo other (mkPosition a azimuthRadians))))
  /\ (sunAltitudeOffset (Some (mkSkyInfo (mkPosition a azimuthRadians) other)) < 50
      <-> a > 0)
  /\ (sunAltitudeOffset (Some (mkSkyInfo (mkPosition a azimuthRadians) other)) < 50
      <-> sunVisibility (mkSkyInfo (mkPosition a azimuthRadians) other)
          = "opacity-100"%string)
  /\ sunAltitudeOffset (Some (mkSkyInfo (mkPosition 0 azimuthRadians) other)) = 50.
Proof.
  intros La M Ub.
  destruct (moon_sun_cases (mkSkyInfo (mkPosition a azimuthRadians) other))
    as (S1 & _). simpl in S1. simpl sunAltitudeOffset. simpl moonAltitudeOffset.
  pose proof PI_gt_2 as P.
  assert (I : sin a <= sin b) by (apply sin_incr_1; lra).
  assert (Side : (1 - sin a) * 50 < 50 <-> a > 0).
  { split; intros X.
    - destruct (Rle_or_lt a 0) as [N|Pa]; [|exact Pa].
      assert (sin a <= sin 0) by (apply sin_incr_1; lra).
      rewrite sin_0 in *. lra.
    - assert (0 < sin a) by (apply sin_gt_0; lra). lra. }
  split; [split; lra|]. split; [exact Side|].
  split; [rewrite Side, S1; reflexivity | rewrite sin_0; lra].
Qed.

Lemma offset_follows_altitude_witness :
  (- (PI / 2) <= 0 /\ 0 <= PI / 2 /\ PI / 2 <= PI / 2)
  /\ sunAltitudeOffset (Some (mkSkyInfo (mkPosition (PI / 2) 0) (mkPosition 0 0)))
     <= sunAltitudeOffset (Some (mkSkyInfo (mkPosition 0 0) (mkPosition 0 0))).
Proof.
  pose proof PI_gt_2 as P.
  assert (A : - (PI / 2) <= 0) by lra.
  assert (B : 0 <= PI / 2) by lra.
  assert (C : PI / 2 <= PI / 2) by lra.
  destruct (offset_follows_altitude 0 (PI / 2) 0 (mkPosition 0 0) A B C)
    as ((X & _) & _).
  split; [split; [exact A | split; [exact B | exact C]] | exact X].
Defined.

End BodyFacts.

(** ** The component: invariants and persistence *)

Module AppMore.
Import JSDate App AppInvariants AppFacts.
Local Open Scope Z_scope.

Section More.
Context `{Engine} `{SunCalc}.

Abbreviation key := "sunriseAlarm"%string.

Lemma alarmEffect_frame (s : AppState) :
  now (alarmEffect s) = now s
  /\ location (alarmEffect s) = location s
  /\ celestialInfo (alarmEffect s) = celestialInfo s
  /\ alarmTime (alarmEffect s) = alarmTime s
  /\ localStorage (alarmEffect s) = localStorage s.
Proof.
  destruct (alarmEffect_cases s) as [[-> _]|(_ & _ & ->)];
    repeat split; reflexivity.
Qed.

Lemma celestialEffect_fresh (s : AppState) :
  (location s = None -> celestialInfo s = None) ->
  snapshotFresh (celestialEffect s).
Proof.
  unfold snapshotFresh, celestialEffect. intros N.
  destruct (location s) as [loc|] eqn:L; simpl; rewrite L; auto.
Qed.

Lemma alarmEffect_fresh (s : AppState) :
  snapshotFresh s -> snapshotFresh (alarmEffect s).
Proof.
  unfold snapshotFresh.
  destruct (alarmEffect_frame s) as (-> & -> & -> & _). trivial.
Qed.

Lemma handle_keeps_loading (e : Event) (s : AppState) :
  snapshotFresh s ->
  location (handle e s) = None -> celestialInfo (handle e s) = None.
Proof.
  unfold snapshotFresh. intros F.
  destruct e; simpl; try discriminate.
  - intros L. rewrite L in F. exact F.
  - destruct (setSunriseAlarm_frame clock1 clock2 s) as (_ & _ & _ & -> & ->).
    intros L. rewrite L in F. exact F.
  - intros L. rewrite L in F. exact F.
  - unfold dismissAlarm.
    match goal with |- context [setSunriseAlarm _ _ ?x] =>
      destruct (setSunriseAlarm_frame clock1 clock2 x) as (_ & _ & _ & -> & ->) end.
    simpl. intros L. rewrite L in F. exact F.
Qed.

Lemma step_fresh (e : Event) (s : AppState) :
  snapshotFresh s -> snapshotFresh (step e s).
Proof.
  intros F. apply alarmEffect_fresh, celestialEffect_fresh,
    handle_keeps_loading, F.
Qed.

Lemma reachable_fresh (s : AppState) : reachable s -> snapshotFresh s.
Proof.
  induction 1 as [storage now0|e s R IH E].
  - apply alarmEffect_fresh, celestialEffect_fresh. reflexivity.
  - apply step_fresh, IH.
Qed.

Lemma step_located (e : Event) (s : AppState) :
  is_Some (location s) -> is_Some (location (step e s)).
Proof.
  intros L. unfold step.
  destruct (alarmEffect_frame (celestialEffect (handle e s))) as (_ & -> & _).
  destruct (celestialEffect_frame (handle e s)) as (_ & _ & _ & _ & _ & ->).
  destruct e; simpl; eauto.
  - destruct (setSunriseAlarm_frame clock1 clock2 s) as (_ & _ & _ & _ & ->).
    exact L.
  - unfold dismissAlarm.
    match goal with |- context [setSunriseAlarm _ _ ?x] =>
      destruct (setSunriseAlarm_frame clock1 clock2 x) as (_ & _ & _ & _ & ->) end.
    exact L.
Qed.

Lemma fresh_located (s : AppState) :
  snapshotFresh s -> (is_Some (celestialInfo s) <-> is_Some (location s)).
Proof.
  unfold snapshotFresh. intros F.
  destruct (location s) as [loc|]; rewrite F; split; intros [x X];
    try discriminate; eauto.
Qed.

(** X9. In every state the component reaches, the snapshot is the one
    the library gives for the current instant and location, there is
    none before the location is known, and once there is one there is
    one for ever: the main view never falls back to the waiting
    view. *)
Theorem snapshot_is_current (s : AppState) :
  reachable s ->
  snapshotFresh s
  /\ (is_Some (celestialInfo s) <-> is_Some (location s))
  /\ forall e : Event,
       is_Some (celestialInfo s) -> is_Some (celestialInfo (step e s)).
Proof.
  intros R. pose proof (reachable_fresh s R) as F.
  split; [exact F|]. split; [apply fresh_located, F|].
  intros e C. apply fresh_located; [apply step_fresh, F|].
  apply step_located, fresh_located; assumption.
Qed.

(** X10. Arming never fails on the location: in every state the
    component reaches, neither "Set True Sunrise Alarm" nor "Dismiss"
    ends with a [TypeError] from [location!], and without a snapshot
    arming changes nothing. *)
Theorem arming_never_lacks_location (s : AppState) (c1 c2 : Z) :
  reachable s ->
  snd (setSunriseAlarm c1 c2 s) <> ThrowTypeError
  /\ snd (dismissAlarm c1 c2 s) <> ThrowTypeError
  /\ (celestialInfo s = None -> setSunriseAlarm c1 c2 s = (s, Normal)).
Proof.
  intros R. pose proof (reachable_fresh s R) as F.
  assert (G : forall x, celestialInfo x = celestialInfo s ->
                        location x = location s ->
                        snd (setSunriseAlarm c1 c2 x) <> ThrowTypeError).
  { intros x Cx Lx. unfold setSunriseAlarm. rewrite Cx, Lx.
    unfold snapshotFresh in F.
    destruct (location s) as [loc|]; rewrite F; [|discriminate].
    destruct (JSDate.lt _ _);
      match goal with |- context [persistAlarm ?d ?y] => destruct d end;
      discriminate. }
  split; [apply G; reflexivity|]. split; [apply G; reflexivity|].
  intros C. unfold setSunriseAlarm. rewrite C. reflexivity.
Qed.

Lemma alarmEffect_balanced (s : AppState) :
  audioBalanced s -> audioBalanced (alarmEffect s).
Proof.
  intros (O & C & B).
  destruct (alarmEffect_cases s) as [[-> _]|(R & _ & ->)]; [repeat split; trivial|].
  unfold audioBalanced. simpl. rewrite R in O. rewrite O in *. simpl.
  repeat split. lia.
Qed.

Lemma celestialEffect_balanced (s : AppState) :
  audioBalanced s -> audioBalanced (celestialEffect s).
Proof.
  unfold audioBalanced.
  destruct (celestialEffect_frame s) as (_ & _ & -> & _ & -> & _). trivial.
Qed.

Lemma handle_balanced (e : Event) (s : AppState) :
  audioBalanced s -> audioBalanced (handle e s).
Proof.
  intros (O & C & B). destruct (isDismiss e) eqn:D.
  - destruct e; try discriminate D. simpl. unfold dismissAlarm, audioBalanced.
    match goal with |- context [setSunriseAlarm _ _ ?x] =>
      destruct (setSunriseAlarm_frame clock1 clock2 x) as (-> & -> & _) end.
    simpl. unfold stopAlarmSound.
    destruct (oscillator (audio s)) eqn:Os; simpl.
    + rewrite (C eq_refl). simpl. repeat split; try discriminate. lia.
    + rewrite Os. repeat split; try discriminate. exact B.
  - unfold audioBalanced. destruct (handle_frame e s D) as [-> ->].
    repeat split; trivial.
Qed.

Lemma reachable_balanced (s : AppState) : reachable s -> audioBalanced s.
Proof.
  induction 1 as [storage now0|e s R IH E].
  - apply alarmEffect_balanced, celestialEffect_balanced.
    repeat split. discriminate.
  - apply alarmEffect_balanced, celestialEffect_balanced, handle_balanced, IH.
Qed.

(** X11. In every state the component reaches, the tone sounds
    exactly while the alarm rings, and tones never pile up: every
    oscillator that was started has been stopped, but the one that
    sounds. *)
Theorem tone_follows_ringing (s : AppState) :
  reachable s ->
  oscillator (audio s) = isAlarmRinging s
  /\ starts (audio s)
     = (stops (audio s) + if isAlarmRinging s then 1 else 0)%nat.
Proof.
  intros R. destruct (reachable_balanced s R) as (O & _ & B).
  split; [exact O|]. rewrite <- O. exact B.
Qed.

Lemma getSeconds_day_shift (t k : Z) :
  getSeconds (Some (t + k * msPerDay)) = getSeconds (Some t).
Proof.
  unfold getSeconds, localTime, msPerDay, msPerSecond. simpl. f_equal.
  replace (t + k * 86400000 + LocalTZA)
    with (t + LocalTZA + (60 * (1440 * k)) * 1000) by lia.
  rewrite Z.div_add by lia.
  rewrite Z.add_mod, (Z.mul_comm 60 (1440 * k)), Z.mod_mul, Z.add_0_r, Z.mod_mod; lia.
Qed.


Lemma seconds_no_match (t : Z) (target : Date) :
  getSeconds (Some t) <> Some 0 -> alarmMatches t target = false.
Proof.
  intros N. unfold alarmMatches.
  destruct (strictEq (getSeconds (Some t)) (Some 0)) eqn:E;
    [|apply andb_false_r].
  exfalso. apply N. apply strictEq_true in E as (n & -> & [= <-]). reflexivity.
Qed.

(** X12. A tick outside second 0 never makes the alarm ring: if none
    of the ticks that come falls in the second 0 of its minute, the
    alarm state stays as it is, and an armed alarm is missed. *)
Theorem alarm_missed_without_second_0 (ticks : list Z) (s : AppState) :
  Forall (fun t => getSeconds (Some t) <> Some 0) ticks ->
  alarmState (run (map Tick ticks) s) = alarmState s
  /\ audio (run (map Tick ticks) s) = audio s.
Proof.
  intros N. revert s. induction N as [|t ticks Nt _ IH]; intros s; [split; reflexivity|].
  simpl. destruct (IH (step (Tick t) s)) as [-> ->].
  unfold step. change (handle (Tick t) s) with (setNow t s).
  destruct (celestialEffect_frame (setNow t s)) as (Cn & Ca & Cr & _ & Cau & _).
  simpl in Cn, Ca, Cr, Cau.
  destruct (alarmEffect_cases (celestialEffect (setNow t s)))
    as [[-> _]|(_ & (target & _ & M) & _)].
  - unfold alarmState. rewrite Ca, Cr, Cau. split; reflexivity.
  - rewrite Cn, (seconds_no_match t target Nt) in M. discriminate M.
Qed.


(** An instant splits into days, hour, minute, second and
    milliseconds, in one way only. *)
Lemma time_decomp (u : Z) :
  u = 86400000 * (u / 60000 / 60 / 24) + 3600000 * ((u / 3600000) mod 24)
      + 60000 * ((u / 60000) mod 60) + 1000 * ((u / 1000) mod 60) + u mod 1000
  /\ 0 <= u mod 1000 < 1000
  /\ u mod 60000 = 1000 * ((u / 1000) mod 60) + u mod 1000.
Proof.
  assert (Uh : u / 3600000 = u / 60000 / 60) by (rewrite Z.div_div by lia; reflexivity).
  assert (Um : u / 60000 = u / 1000 / 60) by (rewrite Z.div_div by lia; reflexivity).
  pose proof (Z.div_mod u 1000 ltac:(lia)) as U1.
  pose proof (Z.div_mod (u / 1000) 60 ltac:(lia)) as U2.
  pose proof (Z.div_mod (u / 60000) 60 ltac:(lia)) as A1.
  pose proof (Z.div_mod (u / 60000 / 60) 24 ltac:(lia)) as A2.
  pose proof (Z.div_mod u 60000 ltac:(lia)) as W1.
  pose proof (Z.mod_pos_bound u 1000 ltac:(lia)) as D.
  rewrite Uh. rewrite <- Um in U2.
  revert U1 U2 A1 A2 W1 D.
  generalize (u / 60000 / 60 / 24) ((u / 60000 / 60) mod 24) (u / 60000 / 60)
    ((u / 60000) mod 60) (u / 60000) ((u / 1000) mod 60) (u / 1000)
    (u mod 1000) (u mod 60000).
  intros. lia.
Qed.

Lemma time_decomp_unique (u D h m s r : Z) :
  u = 86400000 * D + 3600000 * h + 60000 * m + 1000 * s + r ->
  0 <= h < 24 -> 0 <= m < 60 -> 0 <= s < 60 -> 0 <= r < 1000 ->
  (u / 3600000) mod 24 = h /\ (u / 60000) mod 60 = m /\ (u / 1000) mod 60 = s.
Proof.
  intros E Hh Hm Hs Hr.
  assert (Q1 : u / 1000 = 86400 * D + 3600 * h + 60 * m + s)
    by (symmetry; apply (Z.div_unique u 1000 _ r); lia).
  assert (Q2 : u / 60000 = 1440 * D + 60 * h + m)
    by (symmetry; apply (Z.div_unique u 60000 _ (1000 * s + r)); lia).
  assert (Q3 : u / 3600000 = 24 * D + h)
    by (symmetry; apply (Z.div_unique u 3600000 _ (60000 * m + 1000 * s + r)); lia).
  rewrite Q1, Q2, Q3. repeat split; symmetry.
  - apply (Z.mod_unique _ 24 D); lia.
  - apply (Z.mod_unique _ 60 (24 * D + h)); lia.
  - apply (Z.mod_unique _ 60 (1440 * D + 60 * h + m)); lia.
Qed.

(** During the second 0 of the minute of the target, on any day, the
    condition of the alarm effect holds. *)
Lemma second_0_matches (target k d : Z) :
  0 <= d < 1000 ->
  alarmMatches (minuteStart target + k * msPerDay + d) (Some target) = true.
Proof.
  intros D. unfold alarmMatches, getHours, getMinutes, getSeconds, minuteStart,
    localTime, msPerHour, msPerMinute, msPerSecond, msPerDay. simpl.
  generalize LocalTZA. intros tz.
  destruct (time_decomp (target + tz)) as (W & _ & W6).
  pose proof (Z.mod_pos_bound ((target + tz) / 3600000) 24 ltac:(lia)) as Bh.
  pose proof (Z.mod_pos_bound ((target + tz) / 60000) 60 ltac:(lia)) as Bm.
  destruct (time_decomp_unique
              (target - (target + tz) mod 60000 + k * 86400000 + d + tz)
              ((target + tz) / 60000 / 60 / 24 + k)
              (((target + tz) / 3600000) mod 24)
              (((target + tz) / 60000) mod 60) 0 d) as (-> & -> & ->);
    lia.
Qed.


Lemma mount_alarmTime (storage : gmap string string) (now0 : Z) :
  alarmTime (mount storage now0) = initialAlarmTime storage.
Proof.
  unfold mount.
  destruct (alarmEffect_frame (celestialEffect (initialState storage now0)))
    as (_ & _ & _ & -> & _).
  destruct (celestialEffect_frame (initialState storage now0))
    as (_ & -> & _). reflexivity.
Qed.

(** X14. An alarm that was armed survives a reload: when the handler
    ends normally with a valid alarm time that the engine reads back
    from what it wrote, mounting the component on the storage it left
    gives the same alarm time. *)
Theorem armed_alarm_survives_reload (s : AppState) (info : CelestialInfo)
    (c1 c2 t now0 : Z) :
  celestialInfo s = Some info ->
  snd (setSunriseAlarm c1 c2 s) = Normal ->
  alarmTime (fst (setSunriseAlarm c1 c2 s)) = Some (Some t) ->
  Date_parse (Date_toISOString t) = Some t ->
  Date_toISOString t <> ""%string ->
  localStorage (fst (setSunriseAlarm c1 c2 s)) !! key = Some (Date_toISOString t)
  /\ alarmTime (mount (localStorage (fst (setSunriseAlarm c1 c2 s))) now0)
     = Some (Some t).
Proof.
  intros C N A P E.
  assert (K : localStorage (fst (setSunriseAlarm c1 c2 s)) !! key
              = Some (Date_toISOString t)).
  { revert N A. unfold setSunriseAlarm. rewrite C.
    destruct (JSDate.lt (sunrise info) (Some c1)).
    - destruct (location s) as [loc|]; [|discriminate].
      destruct (sunrise (getTimes (addOneDay (Some c2)) loc)) as [x|];
        simpl; [|discriminate].
      intros _ [= ->]. apply lookup_insert_eq.
    - destruct (sunrise info) as [x|]; simpl; [|discriminate].
      intros _ [= ->]. apply lookup_insert_eq. }
  split; [exact K|].
  rewrite mount_alarmTime. unfold initialAlarmTime. rewrite K.
  apply String.eqb_neq in E. rewrite E, P. reflexivity.
Qed.

(** X15. A cleared alarm stays cleared over a reload: mounting the
    component on the storage that clearing leaves starts Unset, with
    no alarm time, whatever the state was. *)
Theorem cleared_alarm_stays_cleared (s : AppState) (now0 : Z) :
  alarmTime (mount (localStorage (clearAlarm s)) now0) = None
  /\ alarmState (mount (localStorage (clearAlarm s)) now0) = Unset
  /\ alarmTime (mount (localStorage (step ClickClear s)) now0) = None.
Proof.
  assert (I : forall st, st !! key = None -> initialAlarmTime st = None).
  { intros st K. unfold initialAlarmTime. rewrite K. reflexivity. }
  assert (A : alarmTime (mount (localStorage (clearAlarm s)) now0) = None).
  { rewrite mount_alarmTime. apply I. simpl. apply lookup_delete_eq. }
  split; [exact A|]. split.
  - unfold alarmState. rewrite A.
    rewrite mount_alarm, alarmEffect_unset; [reflexivity|].
    rewrite mount_alarmTime in A. exact A.
  - rewrite mount_alarmTime. apply I.
    destruct (step_clear s) as (_ & -> & _). apply lookup_delete_eq.
Qed.

(** The condition of the alarm effect holds only during the second 0
    of the minute of the target, on some day. *)
Lemma match_is_second_0 (t target : Z) :
  alarmMatches t (Some target) = true ->
  exists k d : Z,
    0 <= d < 1000 /\ t = minuteStart target + k * msPerDay + d.
Proof.
  unfold alarmMatches, getHours, getMinutes, getSeconds, minuteStart, localTime,
    msPerHour, msPerMinute, msPerSecond, msPerDay. simpl.
  generalize LocalTZA. intros tz.
  rewrite !andb_true_iff, !Z.eqb_eq. intros [[Hh Hm] Hs].
  destruct (time_decomp (t + tz)) as (U & D & _).
  destruct (time_decomp (target + tz)) as (W & _ & W6).
  rewrite Hh, Hm, Hs in U.
  exists ((t + tz) / 60000 / 60 / 24 - (target + tz) / 60000 / 60 / 24),
         ((t + tz) mod 1000).
  split; [exact D|]. lia.
Qed.

(** X16. The alarm condition holds exactly during the first second of
    the local minute of the target, every day: an instant matches if
    and only if it lies less than 1000 ms after that minute begins, a
    whole number of days away. *)
Theorem ring_condition_is_first_second (t target : Z) :
  ringCondition t (Some target)
  <-> exists k d : Z,
        0 <= d < 1000 /\ t = minuteStart target + k * msPerDay + d.
Proof.
  rewrite <- alarmMatches_true. split.
  - apply match_is_second_0.
  - intros (k & d & D & ->). apply second_0_matches, D.
Qed.

End More.

(** *** Instances, in autumn on the reference engine *)

Section MoreExamples.
Import Scenario.
#[local] Existing Instance UTCEngine.engine.
#[local] Existing Instance autumn.

Lemma snapshot_is_current_witness :
  reachable armedForTomorrow
  /\ snapshotFresh armedForTomorrow
  /\ is_Some (celestialInfo (step ClickClear armedForTomorrow)).
Proof.
  destruct (snapshot_is_current armedForTomorrow armedForTomorrow_reachable)
    as (F & _ & K).
  split; [apply armedForTomorrow_reachable|]. split; [exact F|].
  apply K. vm_compute. eauto.
Defined.

Lemma arming_never_lacks_location_witness :
  reachable armedForTomorrow
  /\ snd (setSunriseAlarm tickOfDay0 tickOfDay0 armedForTomorrow) <> ThrowTypeError.
Proof.
  destruct (arming_never_lacks_location armedForTomorrow tickOfDay0 tickOfDay0
              armedForTomorrow_reachable) as (N & _).
  split; [apply armedForTomorrow_reachable | exact N].
Defined.

Lemma tone_follows_ringing_witness :
  reachable ringingBeforeSunrise
  /\ oscillator (audio ringingBeforeSunrise) = isAlarmRinging ringingBeforeSunrise
  /\ isAlarmRinging ringingBeforeSunrise = true.
Proof.
  destruct (tone_follows_ringing ringingBeforeSunrise ringingBeforeSunrise_reachable)
    as (O & _).
  split; [apply ringingBeforeSunrise_reachable|]. split; [exact O | reflexivity].
Defined.

Lemma alarm_missed_without_second_0_witness :
  Forall (fun t => getSeconds (Some t) <> Some 0) [at_ 0 6 32 1 0; at_ 0 6 32 2 0]
  /\ alarmState (run (map Tick [at_ 0 6 32 1 0; at_ 0 6 32 2 0]) armedForTomorrow)
     = alarmState armedForTomorrow.
Proof.
  assert (N : Forall (fun t => getSeconds (Some t) <> Some 0)
                [at_ 0 6 32 1 0; at_ 0 6 32 2 0])
    by (repeat constructor; vm_compute; discriminate).
  destruct (alarm_missed_without_second_0 _ armedForTomorrow N) as (A & _).
  split; [exact N | exact A].
Defined.


Lemma armed_alarm_survives_reload_witness :
  (celestialInfo locatedAfterSunrise = Some (laterEachDay (Some (at_ 0 6 31 0 0)))
   /\ snd (setSunriseAlarm (at_ 0 6 31 0 400) (at_ 0 6 31 0 400) locatedAfterSunrise)
      = Normal
   /\ alarmTime
        (fst (setSunriseAlarm (at_ 0 6 31 0 400) (at_ 0 6 31 0 400) locatedAfterSunrise))
      = Some (Some sunriseOfDay1)
   /\ Date_parse (Date_toISOString sunriseOfDay1) = Some sunriseOfDay1
   /\ Date_toISOString sunriseOfDay1 <> ""%string)
  /\ alarmTime
       (mount
          (localStorage
             (fst (setSunriseAlarm (at_ 0 6 31 0 400) (at_ 0 6 31 0 400)
                     locatedAfterSunrise)))
          (at_ 1 0 0 0 0))
     = Some (Some sunriseOfDay1).
Proof.
  pose proof (armed_alarm_survives_reload locatedAfterSunrise
                (laterEachDay (Some (at_ 0 6 31 0 0)))
                (at_ 0 6 31 0 400) (at_ 0 6 31 0 400) sunriseOfDay1
                (at_ 1 0 0 0 0)) as T.
  assert (C : celestialInfo locatedAfterSunrise
              = Some (laterEachDay (Some (at_ 0 6 31 0 0))))
    by (vm_compute; reflexivity).
  assert (N : snd (setSunriseAlarm (at_ 0 6 31 0 400) (at_ 0 6 31 0 400)
                     locatedAfterSunrise) = Normal)
    by (vm_compute; reflexivity).
  assert (A : alarmTime (fst (setSunriseAlarm (at_ 0 6 31 0 400) (at_ 0 6 31 0 400)
                                locatedAfterSunrise))
              = Some (Some sunriseOfDay1))
    by (vm_compute; reflexivity).
  assert (P : Date_parse (Date_toISOString sunriseOfDay1) = Some sunriseOfDay1)
    by (vm_compute; reflexivity).
  assert (E : Date_toISOString sunriseOfDay1 <> ""%string)
    by (vm_compute; discriminate).
  split; [|exact (proj2 (T C N A P E))].
  split; [exact C | split; [exact N | split; [exact A | split; [exact P | exact E]]]].
Defined.

End MoreExamples.

End AppMore.

(** ** The view *)

Module ViewFacts.
Import View.
Local Open Scope Q_scope.
Local Ltac lra := Lqa.lra.
Local Ltac nra := Lqa.nra.

Lemma clamp_range (e : Q) : 1 <= Qmax 1 (Qmin 4 e) /\ Qmax 1 (Qmin 4 e) <= 4.
Proof.
  split; [apply Q.le_max_l|].
  apply Q.max_lub; [lra | apply Q.le_min_l].
Qed.

Lemma clamp_cases (e : Q) :
  (e <= 1 /\ Qmax 1 (Qmin 4 e) == 1)
  \/ (1 <= e /\ e <= 4 /\ Qmax 1 (Qmin 4 e) == e)
  \/ (4 <= e /\ Qmax 1 (Qmin 4 e) == 4).
Proof.
  destruct (Qlt_le_dec e 1) as [A|A]; [left|right].
  - split; [lra|]. apply Q.max_l. rewrite Q.min_r; lra.
  - destruct (Qlt_le_dec e 4) as [B|B]; [left|right].
    + repeat split; try lra. rewrite Q.min_r by lra. apply Q.max_r, A.
    + split; [exact B|]. rewrite Q.min_l by lra. apply Q.max_r. lra.
Qed.

Lemma gesture_inRange (g : Gesture) (v : ViewState) :
  inRange v -> inRange (gesture g v).
Proof.
  unfold inRange. intros R. destruct g; simpl; trivial.
  - apply clamp_range.
  - unfold handleMouseMove. destruct (negb _); simpl; exact R.
  - lra.
Qed.

(** X17. The scale never leaves [[1, 4]]: whatever the wheel, the
    mouse and "Reset View" do from the initial view, and after a wheel
    event whatever the scale was before. *)
Theorem scale_stays_clamped :
  (forall gs : list Gesture, inRange (gestures gs initialView))
  /\ (forall (deltaY : Q) (v : ViewState), inRange (handleWheel deltaY v)).
Proof.
  split.
  - assert (G : forall gs v, inRange v -> inRange (gestures gs v)).
    { induction gs as [|g gs IH]; simpl; intros v R; [exact R|].
      apply IH, gesture_inRange, R. }
    intros gs. apply G. unfold inRange. simpl. lra.
  - intros deltaY v. apply clamp_range.
Qed.

(** X18. The wheel on a scale in [[1, 4]]: rolling up never zooms
    out and rolling down never zooms in; a step of 20 or more down
    goes straight to scale 1 and a step of 60 or more up straight to
    scale 4; the offsets stay. *)
Theorem wheel_zoom (deltaY : Q) (v : ViewState) :
  inRange v ->
  let v' := handleWheel deltaY v in
  (deltaY <= 0 -> scale (transform v) <= scale (transform v'))
  /\ (0 <= deltaY -> scale (transform v') <= scale (transform v))
  /\ (20 <= deltaY -> scale (transform v') == 1)
  /\ (deltaY <= - (60) -> scale (transform v') == 4)
  /\ x (transform v') = x (transform v)
  /\ y (transform v') = y (transform v).
Proof.
  intros [L U] v'. subst v'. simpl. unfold zoomFactor.
  set (s := scale (transform v)) in *.
  destruct (clamp_cases (s - deltaY * (5 # 100) * s)) as [[A ->]|[(A & B & ->)|[A ->]]];
    repeat split; intros; try reflexivity; try lra; try nra.
Qed.

Lemma wheel_zoom_witness :
  inRange initialView
  /\ scale (transform (handleWheel (- (100)) initialView)) == 4.
Proof.
  assert (R : inRange initialView) by (split; vm_compute; discriminate).
  destruct (wheel_zoom (- (100)) initialView R) as (_ & _ & _ & Z4 & _).
  split; [exact R|]. apply Z4. vm_compute. discriminate.
Defined.

Lemma moves_while_panning (moves : list (Q * Q)) (v : ViewState) :
  isPanning (interactionState v) = true ->
  let v' := gestures (map (fun p => MouseMove (fst p) (snd p)) moves) v in
  interactionState v' = interactionState v
  /\ scale (transform v') = scale (transform v).
Proof.
  revert v. induction moves as [|[cx cy] moves IH]; intros v P; simpl;
    [split; reflexivity|].
  assert (E : handleMouseMove cx cy v
              = mkViewState (mkTransform (scale (transform v))
                               (cx - px (panStart (interactionState v)))
                               (cy - py (panStart (interactionState v))))
                            (interactionState v)).
  { unfold handleMouseMove. rewrite P. reflexivity. }
  rewrite E. destruct (IH (mkViewState (mkTransform (scale (transform v))
                               (cx - px (panStart (interactionState v)))
                               (cy - py (panStart (interactionState v))))
                            (interactionState v)) P) as [I S].
  simpl in *. split; assumption.
Qed.

(** X19. Dragging moves the view with the pointer: after a press at
    one point and moves that end at another, the offsets have changed
    by the displacement of the pointer and the scale has not; moves
    without a press, or after the release, change nothing. *)
Theorem drag_follows_pointer (v : ViewState) (x0 y0 x1 y1 : Q)
    (moves : list (Q * Q)) :
  let path := map (fun p => MouseMove (fst p) (snd p)) (moves ++ [(x1, y1)]) in
  let v' := gestures (MouseDown x0 y0 :: path) v in
  (x (transform v') == x (transform v) + (x1 - x0)
   /\ y (transform v') == y (transform v) + (y1 - y0)
   /\ scale (transform v') = scale (transform v))
  /\ gestures (MouseUp :: path) v' = handleMouseUpOrLeave v'
  /\ (isPanning (interactionState v) = false -> gestures path v = v).
Proof.
  intros path v'.
  assert (Idle : forall w ms, isPanning (interactionState w) = false ->
            gestures (map (fun p => MouseMove (fst p) (snd p)) ms) w = w).
  { intros w ms. revert w. induction ms as [|[cx cy] ms IH]; intros w P; simpl;
      [reflexivity|].
    unfold handleMouseMove at 1. rewrite P. simpl. apply IH, P. }
  split; [|split].
  - subst v' path. simpl. rewrite map_app. unfold gestures. rewrite fold_left_app.
    fold (gestures (map (fun p => MouseMove (fst p) (snd p)) moves)
                   (handleMouseDown x0 y0 v)).
    destruct (moves_while_panning moves (handleMouseDown x0 y0 v) eq_refl)
      as [I S].
    simpl. unfold handleMouseMove. rewrite I. simpl. rewrite S. simpl.
    repeat split; ring.
  - simpl. apply Idle. reflexivity.
  - intros P. apply Idle, P.
Qed.

End ViewFacts.

(** ** The facts *)

Module FactPickerFacts.
Import Body FactPicker.
Local Open Scope Z_scope.

(** What holds of the timers in every state: none without a fact,
    and with a fact the one that the cleanup of the effect knows. *)
Lemma facts_cases (s : FactState) :
  factReachable s ->
  (activeFact s = None /\ pending (timers s) = [] /\ cleanup s = None)
  \/ (is_Some (activeFact s)
      /\ exists id deadline,
           pending (timers s) = [(id, deadline)] /\ cleanup s = Some id).
Proof.
  assert (Clear : forall id d n,
            clearTimeout id (mkTimers [(id, d)] n) = mkTimers [] n).
  { intros id d n. unfold clearTimeout. simpl. rewrite Nat.eqb_refl. reflexivity. }
  induction 1 as [|a b n r t s R IH|id t s R IH F].
  - left. repeat split.
  - right. split; [unfold factStep, factEffect; simpl; eauto|].
    destruct IH as [(A & P & C)|(A & id & d & P & C)];
      unfold factStep, factEffect; simpl; rewrite C.
    + rewrite P. eauto.
    + destruct (timers s) as [pe nx]. simpl in P. subst pe. rewrite Clear.
      simpl. eauto.
  - left. destruct IH as [(A & P & C)|(A & id' & d & P & C)].
    + destruct F as (dl & I & _). rewrite P in I. destruct I.
    + destruct F as (dl & I & _). rewrite P in I.
      destruct I as [[= -> ->]|[]].
      destruct A as [f A]. unfold factStep, factEffect. rewrite A. simpl.
      rewrite C. destruct (timers s) as [pe nx]. simpl in P. subst pe.
      rewrite Clear. simpl. repeat split.
Qed.

(** X20. A fact is shown for its full four seconds: in every state
    the component reaches there is at most one pending timer, and none
    without a fact; after a click at an instant the only timer that may
    fire is the one set then, and not before 4000 ms have passed; when it
    fires the fact goes and no timer is left. *)
Theorem fact_timer_is_single (s : FactState) :
  factReachable s ->
  ((length (pending (timers s)) <= 1)%nat
   /\ (activeFact s = None <-> pending (timers s) = []))
  /\ (forall a b n r t id t',
        mayFire id t' (factStep (BodyClick a b n r t) s) -> t + 4000 <= t')
  /\ (forall id t, mayFire id t s ->
        activeFact (factStep (Timeout id t) s) = None
        /\ pending (timers (factStep (Timeout id t) s)) = []).
Proof.
  intros R. split; [|split].
  - destruct (facts_cases s R) as [(A & P & C)|([f A] & id & d & P & C)];
      rewrite P, A; simpl; repeat split; try lia; try discriminate.
  - intros a b n r t id t' F.
    destruct (facts_cases _ (factReachable_click a b n r t s R))
      as [(A & _)|(_ & id' & d & P & C)]; [discriminate A|].
    destruct F as (dl & I & D). rewrite P in I. destruct I as [[= -> ->]|[]].
    assert (E : In (id, dl) (pending (timers (factStep (BodyClick a b n r t) s))))
      by (rewrite P; left; reflexivity).
    unfold factStep, factEffect, setTimeout in E. simpl in E.
    destruct E as [[= _ <-]|E]; [exact D|].
    exfalso. destruct (facts_cases s R) as [(_ & Ps & Cs)|(_ & i & x & Ps & Cs)];
      rewrite Cs in E.
    + rewrite Ps in E. destruct E.
    + unfold clearTimeout in E. rewrite Ps in E. simpl in E.
      rewrite Nat.eqb_refl in E. destruct E.
  - intros id t F.
    destruct (facts_cases _ (factReachable_timeout id t s R F))
      as [(A & P & _)|([f A] & _)]; [split; assumption|].
    exfalso. unfold factStep, factEffect in A.
    destruct (activeFact s); simpl in A; discriminate A.
Qed.

Lemma fact_timer_is_single_witness :
  factReachable (factStep (BodyClick 0 0 Sun 0 1000) initialFacts)
  /\ (length (pending (timers (factStep (BodyClick 0 0 Sun 0 1000) initialFacts)))
      <= 1)%nat.
Proof.
  assert (R : factReachable (factStep (BodyClick 0 0 Sun 0 1000) initialFacts))
    by (apply factReachable_click, factReachable_initial).
  destruct (fact_timer_is_single _ R) as ((L & _) & _).
  split; [exact R | exact L].
Defined.

(** X21. A click always finds a fact, and a fact of the body that was
    clicked: for a random number in [[0, 1)] the text is one of the four
    facts of that body, never undefined; each of the four can come; and
    the angle is the one of that body. *)
Theorem clicked_body_gets_its_fact (sunAngle moonAngle : R) (name : Name)
    (random : Q) :
  (0 <= random)%Q -> (random < 1)%Q ->
  (exists fact : string,
     text (handleBodyClick sunAngle moonAngle name random) = Some fact
     /\ In fact (celestialFacts name))
  /\ body (handleBodyClick sunAngle moonAngle name random) = name
  /\ angle (handleBodyClick sunAngle moonAngle name random)
     = match name with Sun => sunAngle | Moon => moonAngle end
  /\ (forall fact : string, In fact (celestialFacts name) ->
      exists r : Q,
        (0 <= r)%Q /\ (r < 1)%Q
        /\ text (handleBodyClick sunAngle moonAngle name r) = Some fact).
Proof.
  intros L U. split; [|split; [reflexivity|split; [reflexivity|]]].
  - unfold handleBodyClick. cbn [text].
    set (i := Qfloor (random * inject_Z (Z.of_nat (length (celestialFacts name))))).
    assert (C : i = 0 \/ i = 1 \/ i = 2 \/ i = 3).
    { assert (Len : inject_Z (Z.of_nat (length (celestialFacts name))) = 4%Q)
        by (destruct name; reflexivity).
      subst i. rewrite Len.
      assert (F0 : 0 <= Qfloor (random * 4)).
      { rewrite <- (Qfloor_Z 0). apply Qfloor_resp_le.
        change (inject_Z 0) with 0%Q. Lqa.lra. }
      assert (F4 : Qfloor (random * 4) < 4).
      { rewrite Zlt_Qlt. pose proof (Qfloor_le (random * 4)).
        change (inject_Z 4) with 4%Q. Lqa.lra. }
      lia. }
    destruct C as [E | [E | [E | E]]]; rewrite E; destruct name; simpl;
      eexists; (split; [reflexivity|]); simpl; auto 6.
  - intros fact I.
    destruct name; simpl in I;
      destruct I as [<-|[<-|[<-|[<-|[]]]]];
      [ exists 0%Q | exists (1 # 4)%Q | exists (2 # 4)%Q | exists (3 # 4)%Q
      | exists 0%Q | exists (1 # 4)%Q | exists (2 # 4)%Q | exists (3 # 4)%Q ];
      repeat split; try reflexivity; try discriminate.
Qed.

Lemma clicked_body_gets_its_fact_witness :
  ((0 <= 1 # 2)%Q /\ (1 # 2 < 1)%Q)
  /\ exists fact : string,
       text (handleBodyClick 0 0 Moon (1 # 2)) = Some fact
       /\ In fact (celestialFacts Moon).
Proof.
  assert (A : (0 <= 1 # 2)%Q) by (vm_compute; discriminate).
  assert (B : (1 # 2 < 1)%Q) by reflexivity.
  destruct (clicked_body_gets_its_fact 0 0 Moon (1 # 2) A B) as (F & _).
  split; [split; [exact A | exact B] | exact F].
Defined.

End FactPickerFacts.
